(** * greensim backend: job lifecycle manager (backend/main.go)

    A shallow embedding of the Gin handlers of [backend/main.go] and of
    [applyDefaults], over a model of the Redis commands the handlers issue.

    - [float64] values are binary64 primitive floats; a [*float64] field is an
      [option float] ([nil] is [None]).
    - The Redis database is one keyspace of typed values ([gmap string rvalue]).
    - Every Redis command may fail: with WRONGTYPE when the key holds the other
      kind of value, or with an error that the environment injects (time-out,
      connection loss, ...), drawn from the [faults] plan of the world.
    - [encoding/json], [uuid.NewString] and [time.Now] are not code of this
      repository: the codec is an interface ([JSONCodec]), the fresh id and the
      clock reading are arguments of the submission handler. *)

From Stdlib Require Import Floats.PrimFloat ZArith Lia Ascii.
From stdpp Require Import gmap strings list pretty.

Set Warnings "-inexact-float,-register-all".
Local Open Scope Z_scope.

(** ** Parameters of a simulation *)

Record SimulationParams := mkParams {
  ThermalMass      : option float;   (* thermal_mass *)
  ThermalMassKg    : option float;   (* thermal_mass_kg *)
  CpMass           : option float;   (* cp_mass *)
  VentilationRate  : option float;   (* ventilation_rate *)
  U_day            : option float;
  U_night          : option float;
  A_glass          : option float;
  tau_glass        : option float;
  ACH              : option float;
  Volume           : option float;   (* V *)
  C                : option float;
  T_init           : option float;
  Setpoint         : option float;   (* setpoint *)
  Lat              : option float;   (* lat *)
  Lon              : option float;   (* lon *)
  StartDate        : string;         (* start_date *)
  EndDate          : string;         (* end_date *)
  HeaterMaxW       : option float;   (* heater_max_w *)
  EvapRate         : option float;   (* evap_rate *)
  FractionSolarAir : option float    (* fraction_solar_to_air *)
}.

(** [SimulationParams{}]: every pointer [nil], every string empty. *)
Definition zeroParams : SimulationParams :=
  mkParams None None None None None None None None None None
           None None None None None "" "" None None None.

(** Assignments [p.X = &def] of [applyDefaults], one per field it writes. *)
Definition set_A_glass (v : float) (p : SimulationParams) : SimulationParams :=
  mkParams (ThermalMass p) (ThermalMassKg p) (CpMass p) (VentilationRate p)
    (U_day p) (U_night p) (Some v) (tau_glass p) (ACH p) (Volume p) (C p)
    (T_init p) (Setpoint p) (Lat p) (Lon p) (StartDate p) (EndDate p)
    (HeaterMaxW p) (EvapRate p) (FractionSolarAir p).

Definition set_tau_glass (v : float) (p : SimulationParams) : SimulationParams :=
  mkParams (ThermalMass p) (ThermalMassKg p) (CpMass p) (VentilationRate p)
    (U_day p) (U_night p) (A_glass p) (Some v) (ACH p) (Volume p) (C p)
    (T_init p) (Setpoint p) (Lat p) (Lon p) (StartDate p) (EndDate p)
    (HeaterMaxW p) (EvapRate p) (FractionSolarAir p).

Definition set_U_day (v : float) (p : SimulationParams) : SimulationParams :=
  mkParams (ThermalMass p) (ThermalMassKg p) (CpMass p) (VentilationRate p)
    (Some v) (U_night p) (A_glass p) (tau_glass p) (ACH p) (Volume p) (C p)
    (T_init p) (Setpoint p) (Lat p) (Lon p) (StartDate p) (EndDate p)
    (HeaterMaxW p) (EvapRate p) (FractionSolarAir p).

Definition set_U_night (v : float) (p : SimulationParams) : SimulationParams :=
  mkParams (ThermalMass p) (ThermalMassKg p) (CpMass p) (VentilationRate p)
    (U_day p) (Some v) (A_glass p) (tau_glass p) (ACH p) (Volume p) (C p)
    (T_init p) (Setpoint p) (Lat p) (Lon p) (StartDate p) (EndDate p)
    (HeaterMaxW p) (EvapRate p) (FractionSolarAir p).

Definition set_ACH (v : float) (p : SimulationParams) : SimulationParams :=
  mkParams (ThermalMass p) (ThermalMassKg p) (CpMass p) (VentilationRate p)
    (U_day p) (U_night p) (A_glass p) (tau_glass p) (Some v) (Volume p) (C p)
    (T_init p) (Setpoint p) (Lat p) (Lon p) (StartDate p) (EndDate p)
    (HeaterMaxW p) (EvapRate p) (FractionSolarAir p).

Definition set_Volume (v : float) (p : SimulationParams) : SimulationParams :=
  mkParams (ThermalMass p) (ThermalMassKg p) (CpMass p) (VentilationRate p)
    (U_day p) (U_night p) (A_glass p) (tau_glass p) (ACH p) (Some v) (C p)
    (T_init p) (Setpoint p) (Lat p) (Lon p) (StartDate p) (EndDate p)
    (HeaterMaxW p) (EvapRate p) (FractionSolarAir p).

Definition set_C (v : float) (p : SimulationParams) : SimulationParams :=
  mkParams (ThermalMass p) (ThermalMassKg p) (CpMass p) (VentilationRate p)
    (U_day p) (U_night p) (A_glass p) (tau_glass p) (ACH p) (Volume p) (Some v)
    (T_init p) (Setpoint p) (Lat p) (Lon p) (StartDate p) (EndDate p)
    (HeaterMaxW p) (EvapRate p) (FractionSolarAir p).

Definition set_CpMass (v : float) (p : SimulationParams) : SimulationParams :=
  mkParams (ThermalMass p) (ThermalMassKg p) (Some v) (VentilationRate p)
    (U_day p) (U_night p) (A_glass p) (tau_glass p) (ACH p) (Volume p) (C p)
    (T_init p) (Setpoint p) (Lat p) (Lon p) (StartDate p) (EndDate p)
    (HeaterMaxW p) (EvapRate p) (FractionSolarAir p).

Definition set_T_init (v : float) (p : SimulationParams) : SimulationParams :=
  mkParams (ThermalMass p) (ThermalMassKg p) (CpMass p) (VentilationRate p)
    (U_day p) (U_night p) (A_glass p) (tau_glass p) (ACH p) (Volume p) (C p)
    (Some v) (Setpoint p) (Lat p) (Lon p) (StartDate p) (EndDate p)
    (HeaterMaxW p) (EvapRate p) (FractionSolarAir p).

Definition set_Setpoint (v : float) (p : SimulationParams) : SimulationParams :=
  mkParams (ThermalMass p) (ThermalMassKg p) (CpMass p) (VentilationRate p)
    (U_day p) (U_night p) (A_glass p) (tau_glass p) (ACH p) (Volume p) (C p)
    (T_init p) (Some v) (Lat p) (Lon p) (StartDate p) (EndDate p)
    (HeaterMaxW p) (EvapRate p) (FractionSolarAir p).

Definition set_HeaterMaxW (v : float) (p : SimulationParams) : SimulationParams :=
  mkParams (ThermalMass p) (ThermalMassKg p) (CpMass p) (VentilationRate p)
    (U_day p) (U_night p) (A_glass p) (tau_glass p) (ACH p) (Volume p) (C p)
    (T_init p) (Setpoint p) (Lat p) (Lon p) (StartDate p) (EndDate p)
    (Some v) (EvapRate p) (FractionSolarAir p).

Definition set_FractionSolarAir (v : float) (p : SimulationParams) : SimulationParams :=
  mkParams (ThermalMass p) (ThermalMassKg p) (CpMass p) (VentilationRate p)
    (U_day p) (U_night p) (A_glass p) (tau_glass p) (ACH p) (Volume p) (C p)
    (T_init p) (Setpoint p) (Lat p) (Lon p) (StartDate p) (EndDate p)
    (HeaterMaxW p) (EvapRate p) (Some v).

(** [if p.X == nil { def := d; p.X = &def }] *)
Definition if_nil (x : option float) (assign : SimulationParams → SimulationParams)
    (p : SimulationParams) : SimulationParams :=
  match x with
  | None => assign p
  | Some _ => p
  end.

(** The twelve [if] statements of [applyDefaults], in source order. *)
Definition fill_A_glass (p : SimulationParams) : SimulationParams :=
  if_nil (A_glass p) (set_A_glass 50.0) p.

Definition fill_tau_glass (p : SimulationParams) : SimulationParams :=
  if_nil (tau_glass p) (set_tau_glass 0.85) p.

Definition fill_U_day (p : SimulationParams) : SimulationParams :=
  if_nil (U_day p) (set_U_day 3.0) p.

Definition fill_U_night (p : SimulationParams) : SimulationParams :=
  if_nil (U_night p) (set_U_night 0.6) p.

Definition fill_ACH (p : SimulationParams) : SimulationParams :=
  if_nil (ACH p) (set_ACH 0.5) p.

Definition fill_Volume (p : SimulationParams) : SimulationParams :=
  if_nil (Volume p) (set_Volume 100.0) p.

(** [if p.C == nil && p.ThermalMassKg == nil { def := 2e7; p.C = &def }] *)
Definition fill_C (p : SimulationParams) : SimulationParams :=
  match C p, ThermalMassKg p with
  | None, None => set_C 2e7 p
  | _, _ => p
  end.

Definition fill_CpMass (p : SimulationParams) : SimulationParams :=
  if_nil (CpMass p) (set_CpMass 4186.0) p.

Definition fill_T_init (p : SimulationParams) : SimulationParams :=
  if_nil (T_init p) (set_T_init 15.0) p.

Definition fill_Setpoint (p : SimulationParams) : SimulationParams :=
  if_nil (Setpoint p) (set_Setpoint 12.0) p.

Definition fill_HeaterMaxW (p : SimulationParams) : SimulationParams :=
  if_nil (HeaterMaxW p) (set_HeaterMaxW 5000.0) p.

Definition fill_FractionSolarAir (p : SimulationParams) : SimulationParams :=
  if_nil (FractionSolarAir p) (set_FractionSolarAir 0.5) p.

(** [applyDefaults]: the statements run in sequence on the record that [p]
    points to. [ThermalMass], [ThermalMassKg], [VentilationRate], [EvapRate],
    [Lat], [Lon], [StartDate] and [EndDate] are never assigned. *)
Definition applyDefaults (p : SimulationParams) : SimulationParams :=
  let p := fill_A_glass p in
  let p := fill_tau_glass p in
  let p := fill_U_day p in
  let p := fill_U_night p in
  let p := fill_ACH p in
  let p := fill_Volume p in
  let p := fill_C p in
  let p := fill_CpMass p in
  let p := fill_T_init p in
  let p := fill_Setpoint p in
  let p := fill_HeaterMaxW p in
  let p := fill_FractionSolarAir p in
  p.

(** The numeric fields, by their JSON names, and the projection of each. *)
Inductive field :=
  | thermal_mass | thermal_mass_kg | cp_mass | ventilation_rate
  | f_U_day | f_U_night | f_A_glass | f_tau_glass | f_ACH | f_V | f_C
  | f_T_init | setpoint | lat | lon | heater_max_w | evap_rate
  | fraction_solar_to_air.

Definition get (f : field) (p : SimulationParams) : option float :=
  match f with
  | thermal_mass => ThermalMass p
  | thermal_mass_kg => ThermalMassKg p
  | cp_mass => CpMass p
  | ventilation_rate => VentilationRate p
  | f_U_day => U_day p
  | f_U_night => U_night p
  | f_A_glass => A_glass p
  | f_tau_glass => tau_glass p
  | f_ACH => ACH p
  | f_V => Volume p
  | f_C => C p
  | f_T_init => T_init p
  | setpoint => Setpoint p
  | lat => Lat p
  | lon => Lon p
  | heater_max_w => HeaterMaxW p
  | evap_rate => EvapRate p
  | fraction_solar_to_air => FractionSolarAir p
  end.

(** The request of the integration test and of [TestSubmitJob]:
    [{lat: 41.8781, lon: -87.6298, start_date: "2025-11-01",
      end_date: "2025-11-02"}]. *)
Definition chicago : SimulationParams :=
  mkParams None None None None None None None None None None None None None
           (Some 41.8781%float) (Some (-87.6298)%float)
           "2025-11-01" "2025-11-02" None None None.

(** ** Job records and constants *)

(** [time.Time], as an instant in nanoseconds; [time.Duration] likewise. *)
Definition Time := Z.

Record JobMeta := mkMeta {
  JobID     : string;
  Status    : string;
  CreatedAt : Time;
  UpdatedAt : Time;
  Params    : SimulationParams;
  Error     : string;
  ResultKey : string
}.

Record JobPayload := mkPayload {
  payload_JobID     : string;
  payload_CreatedAt : Time;
  payload_Params    : SimulationParams
}.

(** [var meta JobMeta] *)
Definition zeroMeta : JobMeta := mkMeta "" "" 0 0 zeroParams "" "".

Definition StatusQueued  : string := "queued".
Definition StatusRunning : string := "running".
Definition StatusDone    : string := "done".
Definition StatusError   : string := "error".

Definition RedisJobsList       : string := "simulation_jobs".
Definition RedisResultsPrefix  : string := "job_result:".
Definition RedisJobMetaPrefix  : string := "job_meta:".
Definition RedisRecentJobsList : string := "recent_simulation_ids".
Definition DefaultResultTTL    : Z := 24 * (3600 * 1000000000).
Definition RecentJobsMaxRetain : Z := 100.

Definition StatusOK                  : Z := 200.
Definition StatusAccepted            : Z := 202.
Definition StatusBadRequest          : Z := 400.
Definition StatusNotFound            : Z := 404.
Definition StatusInternalServerError : Z := 500.

(** ** JSON *)

(** What [json.Unmarshal] stores into an [interface{}]. *)
Inductive JSON :=
  | JNull
  | JBool (b : bool)
  | JNumber (x : float)
  | JString (s : string)
  | JArray (items : list JSON)
  | JObject (members : list (string * JSON)).

(** [encoding/json] as the handlers use it. A failure carries [err.Error()].
    [Unmarshal_JobMeta] returns the struct as [json.Unmarshal] leaves it,
    starting from the zero value, together with the error if there is one
    (the decoder keeps what it decoded before a type error). *)
Class JSONCodec := {
  BindJSON           : string → SimulationParams + string;
  Marshal_JobPayload : JobPayload → string + string;
  Marshal_JobMeta    : JobMeta → string + string;
  Unmarshal_JobMeta  : string → JobMeta * option string;
  Unmarshal_any      : string → option JSON
}.

(** [b, _ := json.Marshal(v)]: the bytes, [nil] on error. *)
Definition bytes_or_nil (r : string + string) : string :=
  match r with
  | inl b => b
  | inr _ => ""
  end.

(** ** HTTP responses *)

Inductive Val :=
  | VString (s : string)
  | VStrings (l : list string)
  | VJSON (j : JSON).

(** The value handed to [c.JSON]: a [gin.H] or a [JobMeta]. *)
Inductive Body :=
  | H (members : list (string * Val))
  | MetaBody (m : JobMeta).

Record Response := mkResponse { code : Z; body : Body }.

(** ** The Redis store *)

Inductive rvalue :=
  | RString (s : string) (ttl : Z)
  | RList (l : list string).

(** A command's error: [redis.Nil] or any other error, with its message. *)
Inductive error :=
  | redis_Nil
  | redis_Error (msg : string).

Definition Error_string (e : error) : string :=
  match e with
  | redis_Nil => "redis: nil"
  | redis_Error msg => msg
  end.

Definition WRONGTYPE : error :=
  redis_Error "WRONGTYPE Operation against a key holding the wrong kind of value".

Inductive result (A : Type) :=
  | Ok (a : A)
  | Err (e : error).
Arguments Ok {A} a.
Arguments Err {A} e.

Definition is_ok {A} (r : result A) : bool :=
  match r with
  | Ok _ => true
  | Err _ => false
  end.

Inductive command :=
  | RPUSH (key value : string)
  | LPUSH (key value : string)
  | LTRIM (key : string) (start stop : Z)
  | LRANGE (key : string) (start stop : Z)
  | GET (key : string)
  | SET (key value : string) (ttl : Z).

(** The world a handler runs in: the database, the plan of injected faults
    (one entry per command to come, [Some msg] makes that command fail with
    [msg] and leaves the database as it is; past the end of the plan nothing
    is injected), the commands issued so far with whether each succeeded, and
    the process log. *)
Record World := mkWorld {
  db     : gmap string rvalue;
  faults : list (option string);
  trace  : list (command * bool);
  logs   : list string
}.

Definition Redis (A : Type) : Type := World → A * World.

Definition ret {A} (a : A) : Redis A := fun w => (a, w).

Definition bind {A B} (m : Redis A) (k : A → Redis B) : Redis B :=
  fun w => let '(a, w1) := m w in k a w1.

Notation "x <- m ;; k" := (bind m (fun x => k))
  (at level 100, m at next level, right associativity).

Definition log_Printf (line : string) : Redis unit :=
  fun w => (tt, mkWorld (db w) (faults w) (trace w) (logs w ++ [line])).

(** One round trip: consult the fault plan, else run the command on the
    database; record the command and its outcome. *)
Definition call {A} (c : command)
    (run : gmap string rvalue → result A * gmap string rvalue) : Redis (result A) :=
  fun w =>
    let '(r, d) := match head (faults w) with
                   | Some (Some msg) => (Err (redis_Error msg), db w)
                   | _ => run (db w)
                   end in
    (r, mkWorld d (tail (faults w)) (trace w ++ [(c, is_ok r)]) (logs w)).

(** The elements [start..stop] of a list, with Redis's index conventions
    (negative indices count from the end, out-of-range indices are clipped). *)
Definition range (l : list string) (start stop : Z) : list string :=
  let llen := Z.of_nat (length l) in
  let start := if start <? 0 then llen + start else start in
  let stop := if stop <? 0 then llen + stop else stop in
  let start := if start <? 0 then 0 else start in
  if (start >? stop) || (start >=? llen) then []
  else
    let stop := if stop >=? llen then llen - 1 else stop in
    take (Z.to_nat (stop - start + 1)) (drop (Z.to_nat start) l).

Definition Get (key : string) : Redis (result string) :=
  call (GET key) (fun d =>
    match d !! key with
    | None => (Err redis_Nil, d)
    | Some (RString s _) => (Ok s, d)
    | Some (RList _) => (Err WRONGTYPE, d)
    end).

Definition Set_ (key value : string) (ttl : Z) : Redis (result unit) :=
  call (SET key value ttl) (fun d => (Ok tt, <[key := RString value ttl]> d)).

Definition RPush (key value : string) : Redis (result Z) :=
  call (RPUSH key value) (fun d =>
    match d !! key with
    | None => (Ok 1, <[key := RList [value]]> d)
    | Some (RList l) =>
        (Ok (Z.of_nat (length l) + 1), <[key := RList (l ++ [value])]> d)
    | Some (RString _ _) => (Err WRONGTYPE, d)
    end).

Definition LPush (key value : string) : Redis (result Z) :=
  call (LPUSH key value) (fun d =>
    match d !! key with
    | None => (Ok 1, <[key := RList [value]]> d)
    | Some (RList l) =>
        (Ok (Z.of_nat (length l) + 1), <[key := RList (value :: l)]> d)
    | Some (RString _ _) => (Err WRONGTYPE, d)
    end).

Definition LTrim (key : string) (start stop : Z) : Redis (result unit) :=
  call (LTRIM key start stop) (fun d =>
    match d !! key with
    | None => (Ok tt, d)
    | Some (RList l) =>
        match range l start stop with
        | [] => (Ok tt, delete key d)
        | l' => (Ok tt, <[key := RList l']> d)
        end
    | Some (RString _ _) => (Err WRONGTYPE, d)
    end).

Definition LRange (key : string) (start stop : Z) : Redis (result (list string)) :=
  call (LRANGE key start stop) (fun d =>
    match d !! key with
    | None => (Ok [], d)
    | Some (RList l) => (Ok (range l start stop), d)
    | Some (RString _ _) => (Err WRONGTYPE, d)
    end).

(** ** The handlers of [main] *)

Definition error_body (msg : string) : Body := H [("error", VString msg)].

Section Handlers.
Context `{codec : JSONCodec}.

(** [router.GET("/health", ...)] *)
Definition get_health : Redis Response :=
  ret (mkResponse StatusOK (H [("status", VString "ok")])).

(** [router.POST("/simulate", ...)]; [jobID] is what [uuid.NewString()]
    returns and [now] what [time.Now().UTC()] returns in this request. *)
Definition post_simulate (body jobID : string) (now : Time) : Redis Response :=
  match BindJSON body with
  | inr err =>
      ret (mkResponse StatusBadRequest (error_body ("invalid JSON: " +:+ err)))
  | inl params =>
      let params := applyDefaults params in
      let payload := mkPayload jobID now params in
      match Marshal_JobPayload payload with
      | inr _ =>
          ret (mkResponse StatusInternalServerError
                 (error_body "failed to marshal job payload"))
      | inl payloadBytes =>
          r <- RPush RedisJobsList payloadBytes ;;
          match r with
          | Err e =>
              ret (mkResponse StatusInternalServerError
                     (error_body ("failed to enqueue job: " +:+ Error_string e)))
          | Ok _ =>
              let meta := mkMeta jobID StatusQueued now now params ""
                                 (RedisResultsPrefix +:+ jobID) in
              let metaBytes := bytes_or_nil (Marshal_JobMeta meta) in
              r <- Set_ (RedisJobMetaPrefix +:+ jobID) metaBytes DefaultResultTTL ;;
              _ <- match r with
                   | Err e =>
                       log_Printf ("warning: failed to set job meta: " +:+ Error_string e)
                   | Ok _ => ret tt
                   end ;;
              r <- LPush RedisRecentJobsList jobID ;;
              _ <- match r with
                   | Ok _ =>
                       _ <- LTrim RedisRecentJobsList 0 (RecentJobsMaxRetain - 1) ;;
                       ret tt
                   | Err _ => ret tt
                   end ;;
              ret (mkResponse StatusAccepted
                     (H [("job_id", VString jobID); ("status", VString StatusQueued)]))
          end
      end
  end.

(** [router.GET("/results/:job_id", ...)] *)
Definition get_results_by_id (jobID : string) : Redis Response :=
  r <- Get (RedisResultsPrefix +:+ jobID) ;;
  match r with
  | Err redis_Nil =>
      r2 <- Get (RedisJobMetaPrefix +:+ jobID) ;;
      match r2 with
      | Ok metaBytes =>
          let meta := fst (Unmarshal_JobMeta metaBytes) in
          ret (mkResponse StatusOK
                 (H [("job_id", VString jobID); ("status", VString (Status meta))]))
      | Err _ =>
          ret (mkResponse StatusNotFound (error_body "no result or job not found"))
      end
  | Err e =>
      ret (mkResponse StatusInternalServerError
             (error_body ("redis error: " +:+ Error_string e)))
  | Ok res =>
      match Unmarshal_any res with
      | Some parsed =>
          ret (mkResponse StatusOK
                 (H [("job_id", VString jobID); ("status", VString StatusDone);
                     ("result", VJSON parsed)]))
      | None =>
          ret (mkResponse StatusOK
                 (H [("job_id", VString jobID); ("status", VString StatusDone);
                     ("result", VString res)]))
      end
  end.

(** [router.GET("/results", ...)] *)
Definition get_results : Redis Response :=
  r <- LRange RedisRecentJobsList 0 49 ;;
  match r with
  | Err (redis_Error msg) =>
      ret (mkResponse StatusInternalServerError (error_body ("redis error: " +:+ msg)))
  | Err redis_Nil => ret (mkResponse StatusOK (H [("recent_job_ids", VStrings [])]))
  | Ok ids => ret (mkResponse StatusOK (H [("recent_job_ids", VStrings ids)]))
  end.

(** [router.GET("/jobs/:job_id", ...)] *)
Definition get_job (jobID : string) : Redis Response :=
  r <- Get (RedisJobMetaPrefix +:+ jobID) ;;
  match r with
  | Err redis_Nil => ret (mkResponse StatusNotFound (error_body "job not found"))
  | Err e =>
      ret (mkResponse StatusInternalServerError
             (error_body ("redis error: " +:+ Error_string e)))
  | Ok metaStr =>
      match Unmarshal_JobMeta metaStr with
      | (_, Some _) =>
          ret (mkResponse StatusInternalServerError
                 (error_body "failed to parse job meta"))
      | (meta, None) => ret (mkResponse StatusOK (MetaBody meta))
      end
  end.

(** Requests served one after the other: each is a body with the id and the
    clock reading drawn for it. *)
Fixpoint submit_all (reqs : list (string * string * Time)) : Redis (list Response) :=
  match reqs with
  | [] => ret []
  | (body, jobID, now) :: rest =>
      r <- post_simulate body jobID now ;;
      rs <- submit_all rest ;;
      ret (r :: rs)
  end.
End Handlers.

(** ** Observations on a world *)

(** The list under a key (empty when the key holds none). *)
Definition list_at (d : gmap string rvalue) (key : string) : list string :=
  match d !! key with
  | Some (RList l) => l
  | _ => []
  end.

(** The recency index as stored. *)
Definition recent_ids (w : World) : list string :=
  list_at (db w) RedisRecentJobsList.

(** The commands a run issued, given the worlds before and after it. *)
Definition issued (w w' : World) : list (command * bool) :=
  drop (length (trace w)) (trace w').

(** The string stored under a key, if the key holds a string. *)
Definition stored (w : World) (key : string) : option string :=
  match db w !! key with
  | Some (RString s _) => Some s
  | _ => None
  end.

Definition absent (w : World) (key : string) : Prop := db w !! key = None.

(** The next [n] commands meet no injected fault. *)
Definition calm (n : nat) (w : World) : Prop :=
  Forall (fun f => f = None) (take n (faults w)).

(** A key on which list commands do not fail with WRONGTYPE. *)
Definition list_or_absent (w : World) (key : string) : Prop :=
  ∀ s ttl, db w !! key ≠ Some (RString s ttl).

(** The submission is decodable and its payload serialisable. *)
Definition well_formed `{JSONCodec} (req : string * string * Time) : Prop :=
  let '(body, jobID, now) := req in
  ∃ params bytes,
    BindJSON body = inl params ∧
    Marshal_JobPayload (mkPayload jobID now (applyDefaults params)) = inl bytes.

(** The ids of a run of submissions, in submission order. *)
Definition job_ids (reqs : list (string * string * Time)) : list string :=
  (λ req, req.1.2) <$> reqs.

(** The listing's answer, as ids. *)
Definition listed (r : Response) : option (list string) :=
  match code r, body r with
  | 200, H [("recent_job_ids", VStrings ids)] => Some ids
  | _, _ => None
  end.


(** ** What default-filling computes, as a table *)

Definition or_default (x : option float) (d : float) : option float :=
  match x with
  | None => Some d
  | Some v => Some v
  end.

Definition filled (p : SimulationParams) : SimulationParams :=
  mkParams (ThermalMass p) (ThermalMassKg p) (or_default (CpMass p) 4186.0)
    (VentilationRate p) (or_default (U_day p) 3.0) (or_default (U_night p) 0.6)
    (or_default (A_glass p) 50.0) (or_default (tau_glass p) 0.85)
    (or_default (ACH p) 0.5) (or_default (Volume p) 100.0)
    (match C p, ThermalMassKg p with
     | None, None => Some 2e7%float
     | c, _ => c
     end)
    (or_default (T_init p) 15.0) (or_default (Setpoint p) 12.0)
    (Lat p) (Lon p) (StartDate p) (EndDate p)
    (or_default (HeaterMaxW p) 5000.0) (EvapRate p)
    (or_default (FractionSolarAir p) 0.5).

(** The default of each field that has one. *)
Definition default_of (f : field) : option float :=
  match f with
  | f_A_glass => Some 50.0%float
  | f_tau_glass => Some 0.85%float
  | f_U_day => Some 3.0%float
  | f_U_night => Some 0.6%float
  | f_ACH => Some 0.5%float
  | f_V => Some 100.0%float
  | f_C => Some 2e7%float
  | cp_mass => Some 4186.0%float
  | f_T_init => Some 15.0%float
  | setpoint => Some 12.0%float
  | heater_max_w => Some 5000.0%float
  | fraction_solar_to_air => Some 0.5%float
  | thermal_mass | thermal_mass_kg | ventilation_rate | evap_rate | lat | lon => None
  end.

(** ** A stand-in codec and worlds for closed examples *)

Module Toy.
(** Splits [s] at its first bar. *)
Fixpoint cut (s : string) : option (string * string) :=
  match s with
  | EmptyString => None
  | String a rest =>
      if Ascii.eqb a "|"%char then Some (EmptyString, rest)
      else match cut rest with
           | Some (l, r) => Some (String a l, r)
           | None => None
           end
  end.

(** Not JSON: two request bodies are known, a record is written as
    [id|status] and read back from that, and only the literals [null],
    [true] and [false] parse as documents. *)
Definition codec : JSONCodec := {|
  BindJSON body :=
    if String.eqb body "{}" then inl zeroParams
    else if String.eqb body "chicago" then inl chicago
    else inr "invalid character";
  Marshal_JobPayload p := inl (payload_JobID p +:+ "|payload");
  Marshal_JobMeta m := inl (JobID m +:+ "|" +:+ Status m);
  Unmarshal_JobMeta s :=
    match cut s with
    | Some (id, st) => (mkMeta id st 0 0 zeroParams "" "", None)
    | None => (zeroMeta, Some "invalid character")
    end;
  Unmarshal_any s :=
    if String.eqb s "null" then Some JNull
    else if String.eqb s "true" then Some (JBool true)
    else if String.eqb s "false" then Some (JBool false)
    else None
|}.

Definition world (d : gmap string rvalue) (plan : list (option string)) : World :=
  mkWorld d plan [] [].

(** An empty database, no fault planned. *)
Definition fresh : World := world ∅ [].

(** The first command fails. *)
Definition redis_down : World := world ∅ [Some "dial tcp: connection refused"].

(** The enqueue goes through; both later writes fail. *)
Definition flaky : World := world ∅ [None; Some "i/o timeout"; Some "i/o timeout"].

(** A finished job, a queued job, and a job whose record is not a record. *)
Definition jobs : World :=
  world (<["job_result:a" := RString "true" DefaultResultTTL]>
         (<["job_meta:a" := RString "a|running" DefaultResultTTL]>
         (<["job_meta:b" := RString "b|queued" DefaultResultTTL]>
         (<["job_meta:c" := RString "garbage" DefaultResultTTL]> ∅)))) [].

(** As [jobs], with the second read failing. *)
Definition jobs_meta_read_fails : World :=
  mkWorld (db jobs) [None; Some "i/o timeout"] [] [].

(** The submissions [0 .. n-1]: empty bodies, ids [job-0], [job-1], ... *)
Definition batch (n : nat) : list (string * string * Time) :=
  (fun i : nat => ("{}", "job-" +:+ pretty i, Z.of_nat i)) <$> seq 0 n.

(** The index is full after a hundred submissions. *)
Definition full : World := world (db (@submit_all codec (batch 100) fresh).2) [].

(** As [full]; the plan fails the fourth command to come, which is the trim
    of the next submission. *)
Definition full_trim_fails : World :=
  world (db full) [None; None; None; Some "i/o timeout"].
End Toy.

(** ** The record a submission stores *)

(** The [JobMeta] that [POST /simulate] builds for a request whose body
    decoded to [params]. *)
Definition queued_meta (jobID : string) (now : Time) (params : SimulationParams) : JobMeta :=
  mkMeta jobID StatusQueued now now (applyDefaults params) ""
         (RedisResultsPrefix +:+ jobID).

(** Whether a command writes. *)
Definition is_write (c : command) : bool :=
  match c with
  | GET _ | LRANGE _ _ _ => false
  | RPUSH _ _ | LPUSH _ _ | LTRIM _ _ _ | SET _ _ _ => true
  end.

(** ** The client poller ([frontend/src/lib/api.ts], [getJobResults]) *)

(** What a JavaScript call ends in. The text of a [TypeError] is the
    engine's and is left out. *)
Inductive js_error :=
  | JsError (msg : string)
  | JsTypeError.

Inductive outcome (A : Type) :=
  | Returns (a : A)
  | Throws (e : js_error).
Arguments Returns {A} a.
Arguments Throws {A} e.

(** A property of an object that [JSON.parse] built: the last member of
    that name. *)
Fixpoint member (key : string) (ms : list (string * JSON)) : option JSON :=
  match ms with
  | [] => None
  | (k, v) :: rest =>
      match member key rest with
      | Some v' => Some v'
      | None => if String.eqb k key then Some v else None
      end
  end.

(** [response.status]: reading a property of [null] throws, of any other
    value that is not an object with that member gives [undefined]. *)
Definition status_of (response : JSON) : outcome (option JSON) :=
  match response with
  | JNull => Throws JsTypeError
  | JObject ms => Returns (member "status" ms)
  | _ => Returns None
  end.

(** [v === s] for a string literal [s]. *)
Definition is_string (v : option JSON) (s : string) : bool :=
  match v with
  | Some (JString s') => String.eqb s' s
  | _ => false
  end.

(** A response that leaves the loop running. *)
Definition pending_response (response : JSON) : Prop :=
  ∃ st, status_of response = Returns st
        ∧ is_string st "done" = false ∧ is_string st "error" = false.

(** The [while] loop of [getJobResults]. [clock] holds what the calls of
    [Date.now()] to come return, [fetches] what the calls of [fetchAPI] to
    come end in; the loop stops with [None] when the run outlasts them.
    [maxWait] is taken to be a whole number of milliseconds. *)
Fixpoint poll (startTime maxWait : Z) (clock : list Z) (fetches : list (outcome JSON))
    : option (outcome JSON * nat) :=
  match clock with
  | [] => None
  | t :: clock' =>
      if t - startTime <? maxWait then
        match fetches with
        | [] => None
        | Throws e :: _ => Some (Throws e, 1%nat)
        | Returns response :: fetches' =>
            match status_of response with
            | Throws e => Some (Throws e, 1%nat)
            | Returns st =>
                if is_string st "done" then Some (Returns response, 1%nat)
                else if is_string st "error" then
                  Some (Throws (JsError ("Job failed: " +:+ "error")), 1%nat)
                else
                  match poll startTime maxWait clock' fetches' with
                  | Some (o, n) => Some (o, S n)
                  | None => None
                  end
            end
        end
      else Some (Throws (JsError "Timeout waiting for job results"), 0%nat)
  end.

(** [getJobResults(jobId, maxWait)]: how the call ends and how many requests
    it made. *)
Definition getJobResults (maxWait : Z) (clock : list Z) (fetches : list (outcome JSON))
    : option (outcome JSON * nat) :=
  match clock with
  | [] => None
  | startTime :: clock' => poll startTime maxWait clock' fetches
  end.

(** Between two readings of the clock in the loop lie a request and the wait
    of two seconds. *)
Fixpoint paced (prev : Z) (clock : list Z) : Prop :=
  match clock with
  | [] => True
  | t :: clock' => prev + 2000 ≤ t ∧ paced t clock'
  end.

(** * Properties *)

(** ** Default-filling *)

Ltac reduce_fields :=
  cbn [ThermalMass ThermalMassKg CpMass VentilationRate U_day U_night A_glass
       tau_glass ACH Volume C T_init Setpoint Lat Lon StartDate EndDate
       HeaterMaxW EvapRate FractionSolarAir].

(** One statement of [applyDefaults] on a record given field by field. *)
Ltac one_statement stmt :=
  intros p; destruct p; unfold stmt, if_nil, or_default; reduce_fields;
  repeat match goal with
         | |- context [match ?x with Some _ => _ | None => _ end] => destruct x
         end; reflexivity.

Lemma fill_A_glass_eq p :
  fill_A_glass p =
  mkParams (ThermalMass p) (ThermalMassKg p) (CpMass p) (VentilationRate p)
    (U_day p) (U_night p) (or_default (A_glass p) 50.0) (tau_glass p) (ACH p)
    (Volume p) (C p) (T_init p) (Setpoint p) (Lat p) (Lon p) (StartDate p)
    (EndDate p) (HeaterMaxW p) (EvapRate p) (FractionSolarAir p).
Proof. revert p; one_statement fill_A_glass. Qed.

Lemma fill_tau_glass_eq p :
  fill_tau_glass p =
  mkParams (ThermalMass p) (ThermalMassKg p) (CpMass p) (VentilationRate p)
    (U_day p) (U_night p) (A_glass p) (or_default (tau_glass p) 0.85) (ACH p)
    (Volume p) (C p) (T_init p) (Setpoint p) (Lat p) (Lon p) (StartDate p)
    (EndDate p) (HeaterMaxW p) (EvapRate p) (FractionSolarAir p).
Proof. revert p; one_statement fill_tau_glass. Qed.

Lemma fill_U_day_eq p :
  fill_U_day p =
  mkParams (ThermalMass p) (ThermalMassKg p) (CpMass p) (VentilationRate p)
    (or_default (U_day p) 3.0) (U_night p) (A_glass p) (tau_glass p) (ACH p)
    (Volume p) (C p) (T_init p) (Setpoint p) (Lat p) (Lon p) (StartDate p)
    (EndDate p) (HeaterMaxW p) (EvapRate p) (FractionSolarAir p).
Proof. revert p; one_statement fill_U_day. Qed.

Lemma fill_U_night_eq p :
  fill_U_night p =
  mkParams (ThermalMass p) (ThermalMassKg p) (CpMass p) (VentilationRate p)
    (U_day p) (or_default (U_night p) 0.6) (A_glass p) (tau_glass p) (ACH p)
    (Volume p) (C p) (T_init p) (Setpoint p) (Lat p) (Lon p) (StartDate p)
    (EndDate p) (HeaterMaxW p) (EvapRate p) (FractionSolarAir p).
Proof. revert p; one_statement fill_U_night. Qed.

Lemma fill_ACH_eq p :
  fill_ACH p =
  mkParams (ThermalMass p) (ThermalMassKg p) (CpMass p) (VentilationRate p)
    (U_day p) (U_night p) (A_glass p) (tau_glass p) (or_default (ACH p) 0.5)
    (Volume p) (C p) (T_init p) (Setpoint p) (Lat p) (Lon p) (StartDate p)
    (EndDate p) (HeaterMaxW p) (EvapRate p) (FractionSolarAir p).
Proof. revert p; one_statement fill_ACH. Qed.

Lemma fill_Volume_eq p :
  fill_Volume p =
  mkParams (ThermalMass p) (ThermalMassKg p) (CpMass p) (VentilationRate p)
    (U_day p) (U_night p) (A_glass p) (tau_glass p) (ACH p)
    (or_default (Volume p) 100.0) (C p) (T_init p) (Setpoint p) (Lat p) (Lon p)
    (StartDate p) (EndDate p) (HeaterMaxW p) (EvapRate p) (FractionSolarAir p).
Proof. revert p; one_statement fill_Volume. Qed.

Lemma fill_C_eq p :
  fill_C p =
  mkParams (ThermalMass p) (ThermalMassKg p) (CpMass p) (VentilationRate p)
    (U_day p) (U_night p) (A_glass p) (tau_glass p) (ACH p) (Volume p)
    (match C p, ThermalMassKg p with
     | None, None => Some 2e7%float
     | c, _ => c
     end)
    (T_init p) (Setpoint p) (Lat p) (Lon p) (StartDate p) (EndDate p)
    (HeaterMaxW p) (EvapRate p) (FractionSolarAir p).
Proof. revert p; one_statement fill_C. Qed.

Lemma fill_CpMass_eq p :
  fill_CpMass p =
  mkParams (ThermalMass p) (ThermalMassKg p) (or_default (CpMass p) 4186.0)
    (VentilationRate p) (U_day p) (U_night p) (A_glass p) (tau_glass p) (ACH p)
    (Volume p) (C p) (T_init p) (Setpoint p) (Lat p) (Lon p) (StartDate p)
    (EndDate p) (HeaterMaxW p) (EvapRate p) (FractionSolarAir p).
Proof. revert p; one_statement fill_CpMass. Qed.

Lemma fill_T_init_eq p :
  fill_T_init p =
  mkParams (ThermalMass p) (ThermalMassKg p) (CpMass p) (VentilationRate p)
    (U_day p) (U_night p) (A_glass p) (tau_glass p) (ACH p) (Volume p) (C p)
    (or_default (T_init p) 15.0) (Setpoint p) (Lat p) (Lon p) (StartDate p)
    (EndDate p) (HeaterMaxW p) (EvapRate p) (FractionSolarAir p).
Proof. revert p; one_statement fill_T_init. Qed.

Lemma fill_Setpoint_eq p :
  fill_Setpoint p =
  mkParams (ThermalMass p) (ThermalMassKg p) (CpMass p) (VentilationRate p)
    (U_day p) (U_night p) (A_glass p) (tau_glass p) (ACH p) (Volume p) (C p)
    (T_init p) (or_default (Setpoint p) 12.0) (Lat p) (Lon p) (StartDate p)
    (EndDate p) (HeaterMaxW p) (EvapRate p) (FractionSolarAir p).
Proof. revert p; one_statement fill_Setpoint. Qed.

Lemma fill_HeaterMaxW_eq p :
  fill_HeaterMaxW p =
  mkParams (ThermalMass p) (ThermalMassKg p) (CpMass p) (VentilationRate p)
    (U_day p) (U_night p) (A_glass p) (tau_glass p) (ACH p) (Volume p) (C p)
    (T_init p) (Setpoint p) (Lat p) (Lon p) (StartDate p) (EndDate p)
    (or_default (HeaterMaxW p) 5000.0) (EvapRate p) (FractionSolarAir p).
Proof. revert p; one_statement fill_HeaterMaxW. Qed.

Lemma fill_FractionSolarAir_eq p :
  fill_FractionSolarAir p =
  mkParams (ThermalMass p) (ThermalMassKg p) (CpMass p) (VentilationRate p)
    (U_day p) (U_night p) (A_glass p) (tau_glass p) (ACH p) (Volume p) (C p)
    (T_init p) (Setpoint p) (Lat p) (Lon p) (StartDate p) (EndDate p)
    (HeaterMaxW p) (EvapRate p) (or_default (FractionSolarAir p) 0.5).
Proof. revert p; one_statement fill_FractionSolarAir. Qed.

(** The sequence of statements computes the table. *)
Lemma applyDefaults_filled p : applyDefaults p = filled p.
Proof.
  destruct p; unfold applyDefaults, filled; cbv zeta.
  rewrite fill_A_glass_eq; reduce_fields.
  rewrite fill_tau_glass_eq; reduce_fields.
  rewrite fill_U_day_eq; reduce_fields.
  rewrite fill_U_night_eq; reduce_fields.
  rewrite fill_ACH_eq; reduce_fields.
  rewrite fill_Volume_eq; reduce_fields.
  rewrite fill_C_eq; reduce_fields.
  rewrite fill_CpMass_eq; reduce_fields.
  rewrite fill_T_init_eq; reduce_fields.
  rewrite fill_Setpoint_eq; reduce_fields.
  rewrite fill_HeaterMaxW_eq; reduce_fields.
  rewrite fill_FractionSolarAir_eq; reduce_fields.
  reflexivity.
Qed.

Lemma or_default_idem x d : or_default (or_default x d) d = or_default x d.
Proof. destruct x; reflexivity. Qed.

Lemma filled_idem p : filled (filled p) = filled p.
Proof.
  destruct p as [tm tmk cp vr ud un ag tg ach vol c ti sp la lo sd ed hm er fs].
  unfold filled; reduce_fields.
  rewrite !or_default_idem.
  destruct c, tmk; reflexivity.
Qed.

Lemma get_filled_set f p v : get f p = Some v → get f (filled p) = Some v.
Proof.
  destruct p, f; unfold filled, get; reduce_fields; intros ->; reflexivity.
Qed.

Lemma get_filled_unset f p d :
  default_of f = Some d → f ≠ f_C → get f p = None → get f (filled p) = Some d.
Proof.
  destruct p, f; unfold filled, get, default_of; reduce_fields;
    intros Hd Hf Hg; try discriminate; try congruence;
    rewrite Hg; exact Hd.
Qed.

Lemma get_filled_no_default f p :
  default_of f = None → get f (filled p) = get f p.
Proof.
  destruct p, f; unfold default_of; intros Hd; try discriminate; reflexivity.
Qed.

Lemma C_filled p :
  C (filled p) =
  match C p, ThermalMassKg p with
  | None, None => Some 2e7%float
  | c, _ => c
  end.
Proof. reflexivity. Qed.

(** C5, as stated, fails: default-filling does not fill every unset field.
    In the request of the integration test [thermal_mass] is unset and stays
    unset. *)
Lemma applyDefaults_leaves_fields_unset :
  ¬ (∀ f, get f chicago = None → is_Some (get f (applyDefaults chicago))).
Proof.
  intros Hall. destruct (Hall thermal_mass eq_refl) as [v Hv].
  vm_compute in Hv. discriminate Hv.
Qed.

(** C5, amended: default-filling is a total function that fills every unset
    field that has a default with that default ([C] when [thermal_mass_kg] is
    unset as well), leaves the fields without a default and the two dates as
    they are, and never changes a supplied value; on the request with only
    [lat], [lon], [start_date] and [end_date] set, [lat] is the submitted
    41.8781 and [A_glass], [U_day] and [ACH] are 50.0, 3.0 and 0.5. *)
Theorem applyDefaults_fills_defaulted_fields (p : SimulationParams) :
  (∀ f d, default_of f = Some d → f ≠ f_C → get f p = None →
          get f (applyDefaults p) = Some d)
  ∧ (∀ d, default_of f_C = Some d → C p = None → ThermalMassKg p = None →
          C (applyDefaults p) = Some d)
  ∧ (∀ f, default_of f = None → get f (applyDefaults p) = get f p)
  ∧ (∀ f v, get f p = Some v → get f (applyDefaults p) = Some v)
  ∧ StartDate (applyDefaults p) = StartDate p
  ∧ EndDate (applyDefaults p) = EndDate p
  ∧ Lat (applyDefaults chicago) = Some 41.8781%float
  ∧ A_glass (applyDefaults chicago) = Some 50.0%float
  ∧ U_day (applyDefaults chicago) = Some 3.0%float
  ∧ ACH (applyDefaults chicago) = Some 0.5%float.
Proof.
  rewrite !applyDefaults_filled.
  split; [intros f d; apply get_filled_unset |].
  split; [intros d Hd Hc Hk; rewrite C_filled, Hc, Hk; exact Hd |].
  split; [intros f; apply get_filled_no_default |].
  split; [intros f v; apply get_filled_set |].
  repeat split; reflexivity.
Qed.

(** C6: default-filling is idempotent, and a field that is set keeps its
    value (the two dates, which are plain strings, are never touched). *)
Theorem applyDefaults_idempotent_nondestructive (p : SimulationParams) :
  applyDefaults (applyDefaults p) = applyDefaults p
  ∧ (∀ f v, get f p = Some v → get f (applyDefaults p) = Some v)
  ∧ StartDate (applyDefaults p) = StartDate p
  ∧ EndDate (applyDefaults p) = EndDate p.
Proof.
  rewrite !applyDefaults_filled.
  split; [apply filled_idem |].
  split; [intros f v; apply get_filled_set |].
  split; reflexivity.
Qed.

(** C9: [C] gets its default 2e7 exactly when [C] and [thermal_mass_kg] are
    both unset; with [thermal_mass_kg] supplied and [C] not, [C] stays unset;
    [thermal_mass], [thermal_mass_kg], [ventilation_rate], [evap_rate], [lat],
    [lon], [start_date] and [end_date] come out as they went in. *)
Theorem applyDefaults_thermal_capacity (p : SimulationParams) :
  (C p = None → ThermalMassKg p = None → C (applyDefaults p) = Some 2e7%float)
  ∧ (C (applyDefaults p) ≠ C p → C p = None ∧ ThermalMassKg p = None)
  ∧ (∀ kg, ThermalMassKg p = Some kg → C p = None → C (applyDefaults p) = None)
  ∧ ThermalMass (applyDefaults p) = ThermalMass p
  ∧ ThermalMassKg (applyDefaults p) = ThermalMassKg p
  ∧ VentilationRate (applyDefaults p) = VentilationRate p
  ∧ EvapRate (applyDefaults p) = EvapRate p
  ∧ Lat (applyDefaults p) = Lat p
  ∧ Lon (applyDefaults p) = Lon p
  ∧ StartDate (applyDefaults p) = StartDate p
  ∧ EndDate (applyDefaults p) = EndDate p.
Proof.
  rewrite !applyDefaults_filled, C_filled.
  split; [intros -> ->; reflexivity |].
  split; [destruct (C p), (ThermalMassKg p); intros Hne; try (by destruct Hne); done |].
  split; [intros kg -> ->; reflexivity |].
  repeat split; reflexivity.
Qed.

(** ** The store commands *)

Lemma issued_refl w : issued w w = [].
Proof. unfold issued. apply drop_all. Qed.

Lemma issued_app w w' evs : trace w' = trace w ++ evs → issued w w' = evs.
Proof. unfold issued. intros ->. apply drop_app_length. Qed.

Lemma range_from_0 l k :
  0 ≤ k → range l 0 k = take (Z.to_nat (k + 1)) l.
Proof.
  intros Hk. unfold range. cbv zeta.
  repeat (change (0 <? 0) with false; cbv iota).
  destruct (Z.ltb_spec k 0); [lia |].
  destruct (Z.gtb_spec 0 k); [lia |].
  destruct (Z.geb_spec 0 (Z.of_nat (length l))); simpl.
  - destruct l; [by rewrite take_nil | simpl in *; lia].
  - rewrite drop_0.
    destruct (Z.geb_spec k (Z.of_nat (length l))).
    + rewrite !take_ge; [reflexivity | lia | lia].
    + f_equal; lia.
Qed.

Lemma range_nil a b : range [] a b = [].
Proof.
  unfold range. cbv zeta. destruct (_ || _); [done |].
  by rewrite drop_nil, take_nil.
Qed.

Lemma range_0_99 l : range l 0 (RecentJobsMaxRetain - 1) = take 100 l.
Proof. by rewrite range_from_0. Qed.

Lemma range_0_49 l : range l 0 49 = take 50 l.
Proof. by rewrite range_from_0. Qed.

Lemma list_at_insert d key l : list_at (<[key := RList l]> d) key = l.
Proof. unfold list_at. by rewrite lookup_insert_eq. Qed.

Lemma list_at_insert_ne d key k v : k ≠ key → list_at (<[k := v]> d) key = list_at d key.
Proof. intros Hne. unfold list_at. by rewrite lookup_insert_ne. Qed.

Lemma list_at_delete d key : list_at (delete key d) key = [].
Proof. unfold list_at. by rewrite lookup_delete_eq. Qed.

Lemma recent_key_ne_jobs : RedisJobsList ≠ RedisRecentJobsList.
Proof. discriminate. Qed.

Lemma recent_key_ne_meta jobID : RedisJobMetaPrefix +:+ jobID ≠ RedisRecentJobsList.
Proof. discriminate. Qed.

Lemma jobs_key_ne_meta jobID : RedisJobMetaPrefix +:+ jobID ≠ RedisJobsList.
Proof. discriminate. Qed.

(** Whether the plan lets the next command through. *)
Lemma calm_head n w : calm (S n) w → ∀ msg, head (faults w) ≠ Some (Some msg).
Proof.
  unfold calm. destruct (faults w) as [|f fs]; simpl; [done |].
  intros Hc msg. apply Forall_cons in Hc as [-> _]. done.
Qed.

Lemma calm_tail n w w' : faults w' = tail (faults w) → calm (S n) w → calm n w'.
Proof.
  unfold calm. intros ->. destruct (faults w) as [|f fs]; simpl.
  - by rewrite take_nil.
  - intros Hc. by apply Forall_cons in Hc as [_ Hc].
Qed.

Lemma calm_le n m w : (m ≤ n)%nat → calm n w → calm m w.
Proof.
  unfold calm. intros Hle Hc.
  replace m with (min m n) by lia. rewrite <- take_take.
  by apply Forall_take.
Qed.

Lemma calm_drop a b w w' :
  faults w' = drop a (faults w) → calm (a + b) w → calm b w'.
Proof.
  unfold calm. intros ->. rewrite <- take_take_drop.
  by intros [_ ?]%Forall_app.
Qed.

Lemma tail_drop {A} n (l : list A) : tail (drop n l) = drop (S n) l.
Proof. revert l. induction n as [|n IH]; intros [|x l]; simpl; auto. Qed.

(** What one round trip leaves behind. *)
Lemma call_spec {A} c (run : gmap string rvalue → result A * gmap string rvalue) w :
  let r := (call c run w).1 in
  let w' := (call c run w).2 in
  trace w' = trace w ++ [(c, is_ok r)] ∧ faults w' = tail (faults w) ∧
  logs w' = logs w ∧
  ((∃ msg, head (faults w) = Some (Some msg) ∧ r = Err (redis_Error msg) ∧ db w' = db w)
   ∨ ((∀ msg, head (faults w) ≠ Some (Some msg)) ∧ (r, db w') = run (db w))).
Proof.
  unfold call.
  destruct (head (faults w)) as [[msg|]|]; simpl.
  - repeat split. left. by exists msg.
  - destruct (run (db w)) as [r d]; simpl. repeat split. by right.
  - destruct (run (db w)) as [r d]; simpl. repeat split. by right.
Qed.

(** No event of an explicit list is the one sought. *)
Ltac not_among Hin :=
  repeat (apply elem_of_cons in Hin as [Hin | Hin]; [done |]);
  by apply elem_of_nil in Hin.

Ltac from_call E :=
  let T := fresh "Htrace" in
  let F := fresh "Hfaults" in
  let L := fresh "Hlogs" in
  let D := fresh "Hrun" in
  let msg := fresh "msg" in
  match type of E with
  | call ?c ?run ?w = (?r, ?w') =>
      destruct (call_spec c run w) as (T & F & L & D);
      rewrite E in T, F, L, D; simpl in T, F, L, D;
      destruct D as [(msg & D & -> & ?) | (? & D)]
  end.

Lemma RPush_spec key v w r w' :
  RPush key v w = (r, w') →
  trace w' = trace w ++ [(RPUSH key v, is_ok r)] ∧ faults w' = tail (faults w) ∧
  logs w' = logs w ∧
  (if is_ok r then db w' = <[key := RList (list_at (db w) key ++ [v])]> (db w)
   else db w' = db w).
Proof.
  unfold RPush, list_at. intros E. from_call E; [done |].
  repeat split; try done.
  destruct (db w !! key) as [[s ttl|l]|]; by inversion Hrun.
Qed.

Lemma RPush_ok key v w :
  (∀ msg, head (faults w) ≠ Some (Some msg)) → list_or_absent w key →
  is_ok (RPush key v w).1 = true.
Proof.
  intros Hcalm Hkey. destruct (RPush key v w) as [r w'] eqn:E.
  unfold RPush in E. from_call E; [by destruct (Hcalm msg) |].
  destruct (db w !! key) as [[s ttl|l]|] eqn:Hd; inversion Hrun; try done.
  by destruct (Hkey s ttl).
Qed.

Lemma LPush_spec key v w r w' :
  LPush key v w = (r, w') →
  trace w' = trace w ++ [(LPUSH key v, is_ok r)] ∧ faults w' = tail (faults w) ∧
  logs w' = logs w ∧
  (if is_ok r then db w' = <[key := RList (v :: list_at (db w) key)]> (db w)
   else db w' = db w).
Proof.
  unfold LPush, list_at. intros E. from_call E; [done |].
  repeat split; try done.
  destruct (db w !! key) as [[s ttl|l]|]; by inversion Hrun.
Qed.

Lemma LPush_ok key v w :
  (∀ msg, head (faults w) ≠ Some (Some msg)) → list_or_absent w key →
  is_ok (LPush key v w).1 = true.
Proof.
  intros Hcalm Hkey. destruct (LPush key v w) as [r w'] eqn:E.
  unfold LPush in E. from_call E; [by destruct (Hcalm msg) |].
  destruct (db w !! key) as [[s ttl|l]|] eqn:Hd; inversion Hrun; try done.
  by destruct (Hkey s ttl).
Qed.

Lemma Set_spec key v ttl w r w' :
  Set_ key v ttl w = (r, w') →
  trace w' = trace w ++ [(SET key v ttl, is_ok r)] ∧ faults w' = tail (faults w) ∧
  logs w' = logs w ∧
  (if is_ok r then db w' = <[key := RString v ttl]> (db w) else db w' = db w).
Proof.
  unfold Set_. intros E. from_call E; [done |].
  repeat split; try done. by inversion Hrun.
Qed.

Lemma Set_ok key v ttl w :
  (∀ msg, head (faults w) ≠ Some (Some msg)) → is_ok (Set_ key v ttl w).1 = true.
Proof.
  intros Hcalm. destruct (Set_ key v ttl w) as [r w'] eqn:E.
  unfold Set_ in E. from_call E; [by destruct (Hcalm msg) |].
  by inversion Hrun.
Qed.

Lemma LTrim_spec key a b w r w' :
  LTrim key a b w = (r, w') →
  trace w' = trace w ++ [(LTRIM key a b, is_ok r)] ∧ faults w' = tail (faults w) ∧
  logs w' = logs w ∧
  (if is_ok r
   then list_at (db w') key = range (list_at (db w) key) a b ∧
        (∀ k, k ≠ key → db w' !! k = db w !! k) ∧
        list_or_absent w' key
   else db w' = db w).
Proof.
  unfold LTrim, list_or_absent. intros E. from_call E; [done |].
  repeat split; try done.
  unfold list_at at 2.
  destruct (db w !! key) as [[s ttl|l]|] eqn:Hd.
  - by inversion Hrun.
  - destruct (range l a b) as [|x l'] eqn:Hr; inversion Hrun as [[Hok Hdb]];
      rewrite Hdb; simpl; (split; [| split]).
    + apply list_at_delete.
    + intros k Hk. by rewrite lookup_delete_ne.
    + intros s ttl. by rewrite lookup_delete_eq.
    + apply list_at_insert.
    + intros k Hk. by rewrite lookup_insert_ne.
    + intros s ttl. by rewrite lookup_insert_eq.
  - inversion Hrun as [[Hok Hdb]]; rewrite Hdb; simpl. split; [| split; [done |]].
    + unfold list_at. rewrite Hd. symmetry. apply range_nil.
    + intros s ttl. by rewrite Hd.
Qed.

Lemma LTrim_ok key a b w :
  (∀ msg, head (faults w) ≠ Some (Some msg)) → list_or_absent w key →
  is_ok (LTrim key a b w).1 = true.
Proof.
  intros Hcalm Hkey. destruct (LTrim key a b w) as [r w'] eqn:E.
  unfold LTrim in E. from_call E; [by destruct (Hcalm msg) |].
  destruct (db w !! key) as [[s ttl|l]|] eqn:Hd.
  - by destruct (Hkey s ttl).
  - by destruct (range l a b); inversion Hrun.
  - by inversion Hrun.
Qed.

Lemma Get_spec key w r w' :
  Get key w = (r, w') →
  trace w' = trace w ++ [(GET key, is_ok r)] ∧ faults w' = tail (faults w) ∧
  logs w' = logs w ∧ db w' = db w ∧
  ((∃ msg, head (faults w) = Some (Some msg) ∧ r = Err (redis_Error msg))
   ∨ ((∀ msg, head (faults w) ≠ Some (Some msg)) ∧
      r = match db w !! key with
          | None => Err redis_Nil
          | Some (RString s _) => Ok s
          | Some (RList _) => Err WRONGTYPE
          end)).
Proof.
  unfold Get. intros E. from_call E.
  - do 4 (split; [done |]). left. by exists msg.
  - do 3 (split; [done |]).
    destruct (db w !! key) as [[s ttl|l]|]; inversion Hrun; (split; [done |]);
      by right.
Qed.

Lemma LRange_spec key a b w r w' :
  LRange key a b w = (r, w') →
  trace w' = trace w ++ [(LRANGE key a b, is_ok r)] ∧ faults w' = tail (faults w) ∧
  logs w' = logs w ∧ db w' = db w ∧
  ((∃ msg, head (faults w) = Some (Some msg) ∧ r = Err (redis_Error msg))
   ∨ ((∀ msg, head (faults w) ≠ Some (Some msg)) ∧
      r = match db w !! key with
          | None => Ok []
          | Some (RList l) => Ok (range l a b)
          | Some (RString _ _) => Err WRONGTYPE
          end)).
Proof.
  unfold LRange. intros E. from_call E.
  - do 4 (split; [done |]). left. by exists msg.
  - do 3 (split; [done |]).
    destruct (db w !! key) as [[s ttl|l]|]; inversion Hrun; (split; [done |]);
      by right.
Qed.

(** ** Submission *)

Section Submission.
Context `{codec : JSONCodec}.

(** The three ways a submission ends: rejected before any command, aborted
    on the enqueue, or accepted, with what the recency index then holds. *)
Lemma post_simulate_cases body jobID now w :
  let r := (post_simulate body jobID now w).1 in
  let w' := (post_simulate body jobID now w).2 in
  (w' = w ∧ (code r = StatusBadRequest ∨ code r = StatusInternalServerError))
  ∨ (∃ payload msg,
       issued w w' = [(RPUSH RedisJobsList payload, false)] ∧
       db w' = db w ∧ logs w' = logs w ∧
       r = mkResponse StatusInternalServerError
             (error_body ("failed to enqueue job: " +:+ msg)))
  ∨ (∃ payload meta ok rest,
       r = mkResponse StatusAccepted
             (H [("job_id", VString jobID); ("status", VString StatusQueued)]) ∧
       issued w w' =
         (RPUSH RedisJobsList payload, true)
         :: (SET (RedisJobMetaPrefix +:+ jobID) meta DefaultResultTTL, ok) :: rest ∧
       ((rest = [(LPUSH RedisRecentJobsList jobID, false)] ∧
         recent_ids w' = recent_ids w)
        ∨ (rest = [(LPUSH RedisRecentJobsList jobID, true);
                   (LTRIM RedisRecentJobsList 0 (RecentJobsMaxRetain - 1), false)] ∧
           recent_ids w' = jobID :: recent_ids w)
        ∨ (rest = [(LPUSH RedisRecentJobsList jobID, true);
                   (LTRIM RedisRecentJobsList 0 (RecentJobsMaxRetain - 1), true)] ∧
           recent_ids w' = take 100 (jobID :: recent_ids w)))).
Proof.
  destruct (post_simulate body jobID now w) as [r w'] eqn:E; simpl.
  unfold post_simulate in E.
  destruct (BindJSON body) as [params|err];
    [| inversion E; subst; left; simpl; auto].
  destruct (Marshal_JobPayload _) as [payload|err];
    [| inversion E; subst; left; simpl; auto].
  right.
  unfold bind at 1 in E.
  destruct (RPush RedisJobsList payload w) as [r1 w1] eqn:E1.
  apply RPush_spec in E1 as (T1 & F1 & L1 & D1).
  destruct r1 as [n|e]; simpl in *.
  2: { inversion E; subst. left. exists payload, (Error_string e).
       split; [by apply issued_app | done]. }
  right.
  unfold bind at 1 in E.
  destruct (Set_ _ _ _ w1) as [r2 w2] eqn:E2.
  apply Set_spec in E2 as (T2 & F2 & L2 & D2).
  unfold bind at 1 in E.
  set (metaBytes := bytes_or_nil _) in *.
  match type of E with
  | (let '(_, _) := ?m w2 in _) = _ => destruct (m w2) as [u w2'] eqn:E2'
  end.
  assert (db w2' = db w2 ∧ trace w2' = trace w2 ∧ faults w2' = faults w2)
    as (D2' & T2' & F2') by (destruct r2; inversion E2'; done).
  assert (list_at (db w2') RedisRecentJobsList = recent_ids w) as Hrecent.
  { rewrite D2'. unfold recent_ids.
    destruct r2; simpl in D2; rewrite D2, ?D1,
      ?(list_at_insert_ne _ _ _ _ (recent_key_ne_meta jobID)),
      ?(list_at_insert_ne _ _ _ _ recent_key_ne_jobs); done. }
  unfold bind at 1 in E.
  destruct (LPush RedisRecentJobsList jobID w2') as [r3 w3] eqn:E3.
  apply LPush_spec in E3 as (T3 & F3 & L3 & D3).
  unfold bind at 1 in E.
  exists payload, metaBytes, (is_ok r2).
  destruct r3 as [n3|e3]; simpl in *.
  - unfold bind at 1 in E.
    destruct (LTrim _ _ _ w3) as [r4 w4] eqn:E4.
    apply LTrim_spec in E4 as (T4 & F4 & L4 & D4).
    inversion E; subst r w'; clear E.
    assert (issued w w4 =
            [(RPUSH RedisJobsList payload, true);
             (SET (RedisJobMetaPrefix +:+ jobID) metaBytes DefaultResultTTL, is_ok r2);
             (LPUSH RedisRecentJobsList jobID, true);
             (LTRIM RedisRecentJobsList 0 (RecentJobsMaxRetain - 1), is_ok r4)])
      as Hissued.
    { apply issued_app. rewrite T4, T3, T2', T2, T1, <- !app_assoc. done. }
    eexists. split; [done |]. split; [exact Hissued |].
    right. unfold recent_ids.
    destruct r4 as [u4|e4]; simpl in *.
    + right. split; [done |].
      destruct D4 as (-> & _ & _). rewrite D3, list_at_insert, range_0_99, Hrecent. done.
    + left. split; [done |]. by rewrite D4, D3, list_at_insert, Hrecent.
  - inversion E; subst r w'; clear E.
    eexists. split; [done |]. split.
    + apply issued_app. rewrite T3, T2', T2, T1, <- !app_assoc. done.
    + left. split; [done |]. unfold recent_ids at 1. by rewrite D3.
Qed.

(** C1: when the enqueue fails the handler answers 500 with an error body,
    the failed RPUSH is the only command it issued (no SET of the metadata
    record, no LPUSH or LTRIM on the recency index), and the database and
    the log are as they were. *)
Theorem enqueue_failure_aborts req jobID now w payload :
  let r := (post_simulate req jobID now w).1 in
  let w' := (post_simulate req jobID now w).2 in
  (RPUSH RedisJobsList payload, false) ∈ issued w w' →
  code r = StatusInternalServerError
  ∧ (∃ msg, body r = error_body ("failed to enqueue job: " +:+ msg))
  ∧ issued w w' = [(RPUSH RedisJobsList payload, false)]
  ∧ db w' = db w
  ∧ logs w' = logs w.
Proof.
  cbv zeta. pose proof (post_simulate_cases req jobID now w) as Hc; cbv zeta in Hc.
  destruct (post_simulate req jobID now w) as [r w']; cbn [fst snd] in *.
  destruct Hc as [[Hw _] | [(payload' & msg & Hi & Hd & Hl & Hr)
                            | (p' & m & ok & rest & _ & Hi & Hrest)]].
  - rewrite Hw, issued_refl. by intros ?%elem_of_nil.
  - rewrite Hi. intros Hin%list_elem_of_singleton. rewrite Hr; simpl.
    inversion Hin; subst. eauto 10.
  - rewrite Hi. intros Hin.
    destruct Hrest as [[-> _] | [[-> _] | [-> _]]]; not_among Hin.
Qed.

(** C2: once the enqueue has succeeded the handler answers 202 with
    [{job_id: jobID, status: "queued"}], whatever becomes of the SET of the
    metadata record and of the LPUSH on the recency index. *)
Theorem accepted_once_enqueued req jobID now w payload :
  let r := (post_simulate req jobID now w).1 in
  let w' := (post_simulate req jobID now w).2 in
  (RPUSH RedisJobsList payload, true) ∈ issued w w' →
  r = mkResponse StatusAccepted
        (H [("job_id", VString jobID); ("status", VString "queued")]).
Proof.
  cbv zeta. pose proof (post_simulate_cases req jobID now w) as Hc; cbv zeta in Hc.
  destruct (post_simulate req jobID now w) as [r w']; cbn [fst snd] in *.
  destruct Hc as [[Hw _] | [(payload' & msg & Hi & _)
                            | (p' & m & ok & rest & Hr & _)]].
  - rewrite Hw, issued_refl. by intros ?%elem_of_nil.
  - rewrite Hi. intros Hin. not_among Hin.
  - intros _. exact Hr.
Qed.


(** X11: The bound is an invariant of the handler as long as no trim fails. *)
Lemma recency_cap_preserved req jobID now w :
  let w' := (post_simulate req jobID now w).2 in
  (LTRIM RedisRecentJobsList 0 (RecentJobsMaxRetain - 1), false) ∉ issued w w' →
  Z.of_nat (length (recent_ids w)) ≤ RecentJobsMaxRetain →
  Z.of_nat (length (recent_ids w')) ≤ RecentJobsMaxRetain.
Proof.
  cbv zeta. pose proof (post_simulate_cases req jobID now w) as Hc; cbv zeta in Hc.
  destruct (post_simulate req jobID now w) as [r w']; cbn [fst snd] in *.
  destruct Hc as [[-> _] | [(payload' & msg & _ & Hd & _)
                            | (p' & m & ok & rest & _ & Hi & Hrest)]]; [done | |].
  - unfold recent_ids. by rewrite Hd.
  - rewrite Hi. intros Hnot Hlen.
    destruct Hrest as [[_ ->] | [[-> _] | [_ ->]]]; [done | |].
    + destruct Hnot. do 3 apply list_elem_of_further. apply list_elem_of_here.
    + rewrite length_take. unfold RecentJobsMaxRetain. lia.
Qed.

(** A submission that nothing hinders. *)
Lemma post_simulate_healthy req jobID now w :
  well_formed (req, jobID, now) → calm 4 w →
  list_or_absent w RedisJobsList → list_or_absent w RedisRecentJobsList →
  let r := (post_simulate req jobID now w).1 in
  let w' := (post_simulate req jobID now w).2 in
  code r = StatusAccepted
  ∧ recent_ids w' = take 100 (jobID :: recent_ids w)
  ∧ faults w' = drop 4 (faults w)
  ∧ list_or_absent w' RedisJobsList
  ∧ list_or_absent w' RedisRecentJobsList.
Proof.
  intros (params & bytes & Hb & Hm) Hcalm Hjobs Hrecent. cbv zeta.
  destruct (post_simulate req jobID now w) as [r w'] eqn:E; cbn [fst snd].
  unfold post_simulate in E. rewrite Hb in E. cbv zeta in E. rewrite Hm in E.
  unfold bind at 1 in E.
  pose proof (RPush_ok RedisJobsList bytes w (calm_head _ _ Hcalm) Hjobs) as Hok1.
  destruct (RPush RedisJobsList bytes w) as [r1 w1] eqn:E1.
  apply RPush_spec in E1 as (T1 & F1 & L1 & D1).
  destruct r1 as [n|e]; [clear Hok1 | done]. cbn [is_ok] in D1.
  pose proof (calm_tail _ _ _ F1 Hcalm) as Hcalm1.
  unfold bind at 1 in E. set (metaBytes := bytes_or_nil _) in *.
  pose proof (Set_ok (RedisJobMetaPrefix +:+ jobID) metaBytes DefaultResultTTL w1
                (calm_head _ _ Hcalm1)) as Hok2.
  destruct (Set_ _ _ _ w1) as [r2 w2] eqn:E2.
  apply Set_spec in E2 as (T2 & F2 & L2 & D2).
  destruct r2 as [u|e]; [clear Hok2 | done]. cbn [is_ok] in D2.
  pose proof (calm_tail _ _ _ F2 Hcalm1) as Hcalm2.
  unfold bind at 1, ret at 1 in E.
  assert (Hrecent2 : list_or_absent w2 RedisRecentJobsList).
  { intros s ttl. rewrite D2, D1.
    rewrite (lookup_insert_ne _ _ _ _ (recent_key_ne_meta jobID)).
    rewrite (lookup_insert_ne _ _ _ _ recent_key_ne_jobs). apply Hrecent. }
  assert (Hjobs2 : db w2 !! RedisJobsList =
                   Some (RList (list_at (db w) RedisJobsList ++ [bytes]))).
  { rewrite D2, D1, (lookup_insert_ne _ _ _ _ (jobs_key_ne_meta jobID)).
    apply lookup_insert_eq. }
  assert (Hids2 : list_at (db w2) RedisRecentJobsList = recent_ids w).
  { rewrite D2, D1, (list_at_insert_ne _ _ _ _ (recent_key_ne_meta jobID)).
    apply list_at_insert_ne, recent_key_ne_jobs. }
  unfold bind at 1 in E.
  pose proof (LPush_ok RedisRecentJobsList jobID w2 (calm_head _ _ Hcalm2) Hrecent2)
    as Hok3.
  destruct (LPush RedisRecentJobsList jobID w2) as [r3 w3] eqn:E3.
  apply LPush_spec in E3 as (T3 & F3 & L3 & D3).
  destruct r3 as [n3|e]; [clear Hok3 | done]. cbn [is_ok] in D3.
  pose proof (calm_tail _ _ _ F3 Hcalm2) as Hcalm3.
  assert (Hrecent3 : list_or_absent w3 RedisRecentJobsList).
  { intros s ttl. by rewrite D3, lookup_insert_eq. }
  unfold bind at 1 2 in E.
  pose proof (LTrim_ok RedisRecentJobsList 0 (RecentJobsMaxRetain - 1) w3
                (calm_head _ _ Hcalm3) Hrecent3) as Hok4.
  destruct (LTrim _ _ _ w3) as [r4 w4] eqn:E4.
  apply LTrim_spec in E4 as (T4 & F4 & L4 & D4).
  destruct r4 as [u4|e]; [clear Hok4 | done]. cbn [is_ok] in D4.
  destruct D4 as (Hids4 & Hother & Hrecent4).
  inversion E; subst r w'; clear E.
  split; [done |].
  split.
  { unfold recent_ids at 1.
    by rewrite Hids4, D3, list_at_insert, range_0_99, Hids2. }
  split.
  { rewrite F4, F3, F2, F1.
    change (faults w) with (drop 0 (faults w)) at 1. by rewrite !tail_drop. }
  split; [| done].
  intros s ttl. rewrite (Hother _ recent_key_ne_jobs), D3.
  rewrite lookup_insert_ne by (symmetry; apply recent_key_ne_jobs).
  by rewrite Hjobs2.
Qed.
End Submission.

(** ** A run of submissions, and the listing *)

Lemma take_app_take {A} n (l k : list A) : take n (l ++ take n k) = take n (l ++ k).
Proof. rewrite !take_app, take_take. do 2 f_equal. lia. Qed.

(** Pushing ids one by one under a cap keeps the newest. *)
Lemma push_all_capped n (ids old : list string) :
  ids ≠ [] →
  foldl (λ l id, take n (id :: l)) old ids = take n (reverse ids ++ old).
Proof.
  revert old. induction ids as [|id ids IH]; intros old Hne; [done |].
  simpl. destruct ids as [|id' ids'].
  - reflexivity.
  - rewrite IH by done.
    rewrite take_app_take, (reverse_cons (id' :: ids') id), <- app_assoc. done.
Qed.

Section Listing.
Context `{codec : JSONCodec}.

Lemma submit_all_cons req jobID now reqs w :
  submit_all ((req, jobID, now) :: reqs) w =
  let '(r, w1) := post_simulate req jobID now w in
  let '(rs, w') := submit_all reqs w1 in
  (r :: rs, w').
Proof. reflexivity. Qed.

Lemma submit_all_healthy reqs w :
  Forall well_formed reqs → calm (4 * length reqs) w →
  list_or_absent w RedisJobsList → list_or_absent w RedisRecentJobsList →
  let w' := (submit_all reqs w).2 in
  Forall (λ r, code r = StatusAccepted) (submit_all reqs w).1
  ∧ recent_ids w' = foldl (λ l id, take 100 (id :: l)) (recent_ids w) (job_ids reqs)
  ∧ faults w' = drop (4 * length reqs) (faults w)
  ∧ list_or_absent w' RedisRecentJobsList.
Proof.
  revert w. induction reqs as [|[[req jobID] now] reqs IH]; intros w Hwf Hcalm Hjobs Hrecent.
  - cbn. auto.
  - apply Forall_cons in Hwf as [Hwf1 Hwf].
    cbv zeta. rewrite submit_all_cons.
    assert (Hcalm4 : calm 4 w) by (revert Hcalm; apply calm_le; simpl; lia).
    pose proof (post_simulate_healthy req jobID now w Hwf1 Hcalm4 Hjobs Hrecent) as Hp.
    cbv zeta in Hp.
    destruct (post_simulate req jobID now w) as [r w1]; cbn [fst snd] in Hp.
    destruct Hp as (Hr & Hids & Hf & Hjobs1 & Hrecent1).
    assert (Hcalm1 : calm (4 * length reqs) w1).
    { apply (calm_drop 4 _ w _ Hf).
      replace (4 + 4 * length reqs)%nat with (4 * length (((req, jobID), now) :: reqs))%nat
        by (simpl; lia). done. }
    specialize (IH w1 Hwf Hcalm1 Hjobs1 Hrecent1). cbv zeta in IH.
    destruct (submit_all reqs w1) as [rs w']; cbn [fst snd] in *.
    destruct IH as (Hrs & Hids' & Hf' & Hrecent').
    split; [by constructor |].
    split; [by rewrite Hids', Hids |].
    split; [| done].
    rewrite Hf', Hf, drop_drop. f_equal. simpl. lia.
Qed.

Lemma get_results_healthy w :
  calm 1 w → list_or_absent w RedisRecentJobsList →
  (get_results w).1 =
  mkResponse StatusOK (H [("recent_job_ids", VStrings (take 50 (recent_ids w)))]).
Proof.
  intros Hcalm Hrecent. unfold get_results, bind.
  destruct (LRange RedisRecentJobsList 0 49 w) as [r w'] eqn:E.
  apply LRange_spec in E as (_ & _ & _ & _ & [(msg & Hf & _) | [_ ->]]).
  - by destruct (calm_head _ _ Hcalm msg).
  - unfold recent_ids, list_at.
    destruct (db w !! RedisRecentJobsList) as [[s ttl|l]|] eqn:Hd; cbn.
    + by destruct (Hrecent s ttl).
    + by rewrite range_0_49.
    + done.
Qed.

(** C8, amended: after N+1 submissions that nothing hinders (each body
    decodes and its payload serialises, no store command of the run fails,
    the queue and the recency key hold a list or are absent), N = 100 being
    the recency cap, and with the listing's read answered by the store, the
    index holds exactly N ids and the listing returns exactly 50 of them:
    the 50 most recently submitted, the most recent first. *)
Theorem listing_after_overflow reqs w :
  Z.of_nat (length reqs) = RecentJobsMaxRetain + 1 →
  Forall well_formed reqs →
  calm (4 * length reqs + 1) w →
  list_or_absent w RedisJobsList →
  list_or_absent w RedisRecentJobsList →
  let w' := (submit_all reqs w).2 in
  ∃ ids,
    listed (get_results w').1 = Some ids
    ∧ length ids = 50%nat
    ∧ ids = take 50 (reverse (job_ids reqs))
    ∧ head ids = last (job_ids reqs)
    ∧ Z.of_nat (length (recent_ids w')) = RecentJobsMaxRetain.
Proof.
  intros Hlen Hwf Hcalm Hjobs Hrecent. cbv zeta.
  unfold RecentJobsMaxRetain in Hlen.
  assert (Hn : length (job_ids reqs) = 101%nat)
    by (unfold job_ids; rewrite length_fmap; lia).
  assert (Hcalm0 : calm (4 * length reqs) w) by (revert Hcalm; apply calm_le; lia).
  pose proof (submit_all_healthy reqs w Hwf Hcalm0 Hjobs Hrecent) as Hs.
  cbv zeta in Hs.
  destruct (submit_all reqs w) as [rs w']; cbn [fst snd] in *.
  destruct Hs as (_ & Hids & Hf & Hrecent').
  rewrite push_all_capped in Hids by (intros Hnil; by rewrite Hnil in Hn).
  assert (Hcalm' : calm 1 w') by (exact (calm_drop _ _ _ _ Hf Hcalm)).
  exists (take 50 (reverse (job_ids reqs))).
  split.
  { rewrite (get_results_healthy w' Hcalm' Hrecent'). cbn. f_equal.
    rewrite Hids, take_take, take_app_le by (rewrite length_reverse; lia).
    done. }
  split; [rewrite length_take, length_reverse; lia |].
  split; [done |].
  split.
  { rewrite <- head_reverse.
    destruct (reverse (job_ids reqs)) as [|x l] eqn:Hrev; done. }
  rewrite Hids, length_take, length_app, length_reverse.
  unfold RecentJobsMaxRetain. lia.
Qed.
End Listing.

(** ** Status resolution *)

Section Resolver.
Context `{codec : JSONCodec}.

Lemma stored_lookup w key s :
  stored w key = Some s → ∃ ttl, db w !! key = Some (RString s ttl).
Proof.
  unfold stored. destruct (db w !! key) as [[s' ttl|l]|]; [| done ..].
  intros [= ->]. by exists ttl.
Qed.

(** C3: with both reads answered, the result query reports [done] and the
    blob (parsed, or raw when it does not parse) when the blob exists, else
    the status of the metadata record when that exists, else not found. *)
Theorem result_query_resolution jobID w :
  calm 2 w →
  let r := (get_results_by_id jobID w).1 in
  (∀ res, stored w (RedisResultsPrefix +:+ jobID) = Some res →
     r = mkResponse StatusOK
           (H [("job_id", VString jobID); ("status", VString "done");
               ("result", match Unmarshal_any res with
                          | Some parsed => VJSON parsed
                          | None => VString res
                          end)]))
  ∧ (absent w (RedisResultsPrefix +:+ jobID) →
     ∀ meta, stored w (RedisJobMetaPrefix +:+ jobID) = Some meta →
     r = mkResponse StatusOK
           (H [("job_id", VString jobID);
               ("status", VString (Status (Unmarshal_JobMeta meta).1))]))
  ∧ (absent w (RedisResultsPrefix +:+ jobID) →
     absent w (RedisJobMetaPrefix +:+ jobID) →
     r = mkResponse StatusNotFound (error_body "no result or job not found")).
Proof.
  intros Hcalm. cbv zeta. unfold absent.
  destruct (get_results_by_id jobID w) as [r w'] eqn:E; cbn [fst].
  unfold get_results_by_id in E. unfold bind at 1 in E.
  destruct (Get (RedisResultsPrefix +:+ jobID) w) as [r1 w1] eqn:E1.
  apply Get_spec in E1 as (_ & F1 & _ & D1 & [(msg & Hf & _) | [_ ->]]);
    [by destruct (calm_head _ _ Hcalm msg) |].
  pose proof (calm_tail _ _ _ F1 Hcalm) as Hcalm1.
  split; [| split].
  - intros res (ttl & Hres)%stored_lookup. rewrite Hres in E.
    destruct (Unmarshal_any res); by inversion E.
  - intros Hres meta (ttl & Hmeta)%stored_lookup. rewrite Hres in E.
    unfold bind in E.
    destruct (Get (RedisJobMetaPrefix +:+ jobID) w1) as [r2 w2] eqn:E2.
    apply Get_spec in E2 as (_ & _ & _ & _ & [(msg & Hf & _) | [_ ->]]);
      [by destruct (calm_head _ _ Hcalm1 msg) |].
    rewrite D1, Hmeta in E. by inversion E.
  - intros Hres Hmeta. rewrite Hres in E. unfold bind in E.
    destruct (Get (RedisJobMetaPrefix +:+ jobID) w1) as [r2 w2] eqn:E2.
    apply Get_spec in E2 as (_ & _ & _ & _ & [(msg & Hf & _) | [_ ->]]);
      [by destruct (calm_head _ _ Hcalm1 msg) |].
    rewrite D1, Hmeta in E. by inversion E.
Qed.

(** The first read failing with anything but [redis.Nil] is a 500. *)
Lemma result_read_error_is_500 jobID w msg :
  head (faults w) = Some (Some msg) →
  (get_results_by_id jobID w).1 =
  mkResponse StatusInternalServerError (error_body ("redis error: " +:+ msg)).
Proof.
  intros Hf. unfold get_results_by_id, bind.
  destruct (Get (RedisResultsPrefix +:+ jobID) w) as [r1 w1] eqn:E1.
  apply Get_spec in E1 as (_ & _ & _ & _ & [(msg' & Hf' & ->) | [Hno _]]).
  - rewrite Hf in Hf'. by injection Hf' as ->.
  - by destruct (Hno msg).
Qed.

(** The fallback read failing, with whatever error, is a 404, whether or
    not the metadata record is there. *)
Lemma fallback_read_error_is_404 jobID w msg :
  (∀ m, head (faults w) ≠ Some (Some m)) →
  absent w (RedisResultsPrefix +:+ jobID) →
  head (tail (faults w)) = Some (Some msg) →
  (get_results_by_id jobID w).1 =
  mkResponse StatusNotFound (error_body "no result or job not found").
Proof.
  intros Hf0 Hres Hf. unfold get_results_by_id, absent in *. unfold bind at 1.
  destruct (Get (RedisResultsPrefix +:+ jobID) w) as [r1 w1] eqn:E1.
  apply Get_spec in E1 as (_ & F1 & _ & D1 & [(msg' & Hf' & _) | [_ ->]]);
    [by destruct (Hf0 msg') |].
  rewrite Hres. unfold bind.
  destruct (Get (RedisJobMetaPrefix +:+ jobID) w1) as [r2 w2] eqn:E2.
  apply Get_spec in E2 as (_ & _ & _ & _ & [(msg' & _ & ->) | [Hno _]]);
    [done |].
  rewrite F1 in Hno. by destruct (Hno msg).
Qed.

(** C10: when the metadata record is there but does not parse, the metadata
    query answers 500 with an error body: neither the record nor a 404. *)
Theorem unparsable_meta_is_500 jobID w meta err :
  stored w (RedisJobMetaPrefix +:+ jobID) = Some meta →
  (Unmarshal_JobMeta meta).2 = Some err →
  let r := (get_job jobID w).1 in
  code r = StatusInternalServerError
  ∧ (∃ msg, body r = error_body msg)
  ∧ (calm 1 w → body r = error_body "failed to parse job meta").
Proof.
  intros (ttl & Hmeta)%stored_lookup Herr. cbv zeta. unfold get_job, bind.
  destruct (Get (RedisJobMetaPrefix +:+ jobID) w) as [r1 w1] eqn:E1.
  apply Get_spec in E1 as (_ & _ & _ & _ & [(msg & Hf & ->) | [Hno ->]]).
  - cbn. split; [done |]. split; [eauto |].
    intros Hcalm. by destruct (calm_head _ _ Hcalm msg).
  - rewrite Hmeta. destruct (Unmarshal_JobMeta meta) as [m [e|]]; [| done].
    cbn. eauto.
Qed.
End Resolver.

(** ** Closed examples *)

Lemma calm_no_plan n d tr lg : calm n (mkWorld d [] tr lg).
Proof. unfold calm; simpl. rewrite take_nil. constructor. Qed.

Lemma enqueue_failure_aborts_witness :
  let run := @post_simulate Toy.codec "chicago" "job-1" 0 Toy.redis_down in
  code run.1 = StatusInternalServerError
  ∧ (∃ msg, body run.1 = error_body ("failed to enqueue job: " +:+ msg))
  ∧ issued Toy.redis_down run.2 = [(RPUSH RedisJobsList "job-1|payload", false)]
  ∧ db run.2 = db Toy.redis_down
  ∧ logs run.2 = logs Toy.redis_down.
Proof.
  apply (@enqueue_failure_aborts Toy.codec "chicago" "job-1" 0 Toy.redis_down
           "job-1|payload").
  vm_compute. apply list_elem_of_here.
Defined.

Lemma accepted_once_enqueued_witness :
  let run := @post_simulate Toy.codec "chicago" "job-1" 0 Toy.flaky in
  issued Toy.flaky run.2 =
    [(RPUSH RedisJobsList "job-1|payload", true);
     (SET "job_meta:job-1" "job-1|queued" DefaultResultTTL, false);
     (LPUSH RedisRecentJobsList "job-1", false)]
  ∧ run.1 = mkResponse StatusAccepted
              (H [("job_id", VString "job-1"); ("status", VString "queued")]).
Proof.
  split; [reflexivity |].
  apply (@accepted_once_enqueued Toy.codec "chicago" "job-1" 0 Toy.flaky
           "job-1|payload").
  vm_compute. apply list_elem_of_here.
Defined.


(** A trim that fails leaves the index one over the cap: the handler does not
    look at what LTRIM returns. *)
Example failed_trim_leaves_overflow :
  let run := @post_simulate Toy.codec "{}" "job-100" 100 Toy.full_trim_fails in
  code run.1 = StatusAccepted ∧ length (recent_ids run.2) = 101%nat.
Proof. split; reflexivity. Qed.


(** C8, as stated, fails: after 101 submissions the listing holds 50 ids, not
    the 100 of the cap. *)
Lemma listing_is_not_the_whole_index :
  ¬ (∃ ids,
       listed (get_results (@submit_all Toy.codec (Toy.batch 101) Toy.fresh).2).1 = Some ids
       ∧ Z.of_nat (length ids) = RecentJobsMaxRetain).
Proof.
  intros (ids & Hl & Hn). vm_compute in Hl. injection Hl as <-.
  vm_compute in Hn. discriminate Hn.
Qed.

Lemma listing_after_overflow_witness :
  ∃ ids,
    listed (get_results (@submit_all Toy.codec (Toy.batch 101) Toy.fresh).2).1 = Some ids
    ∧ length ids = 50%nat
    ∧ ids = take 50 (reverse (job_ids (Toy.batch 101)))
    ∧ head ids = last (job_ids (Toy.batch 101))
    ∧ Z.of_nat (length (recent_ids (@submit_all Toy.codec (Toy.batch 101) Toy.fresh).2))
      = RecentJobsMaxRetain.
Proof.
  apply (@listing_after_overflow Toy.codec (Toy.batch 101) Toy.fresh).
  - reflexivity.
  - unfold Toy.batch. apply Forall_fmap, Forall_forall. intros i _.
    exists zeroParams. eexists. split; reflexivity.
  - apply calm_no_plan.
  - intros s ttl. unfold Toy.fresh, Toy.world; simpl. by rewrite lookup_empty.
  - intros s ttl. unfold Toy.fresh, Toy.world; simpl. by rewrite lookup_empty.
Defined.

Lemma result_query_resolution_witness :
  (@get_results_by_id Toy.codec "a" Toy.jobs).1 =
    mkResponse StatusOK
      (H [("job_id", VString "a"); ("status", VString "done");
          ("result", VJSON (JBool true))])
  ∧ (@get_results_by_id Toy.codec "b" Toy.jobs).1 =
    mkResponse StatusOK (H [("job_id", VString "b"); ("status", VString "queued")])
  ∧ (@get_results_by_id Toy.codec "z" Toy.jobs).1 =
    mkResponse StatusNotFound (error_body "no result or job not found").
Proof.
  split; [| split].
  - destruct (@result_query_resolution Toy.codec "a" Toy.jobs) as (Hdone & _ & _);
      [apply calm_no_plan |].
    exact (Hdone "true" eq_refl).
  - destruct (@result_query_resolution Toy.codec "b" Toy.jobs) as (_ & Hmeta & _);
      [apply calm_no_plan |].
    exact (Hmeta eq_refl "b|queued" eq_refl).
  - destruct (@result_query_resolution Toy.codec "z" Toy.jobs) as (_ & _ & Hnone);
      [apply calm_no_plan |].
    exact (Hnone eq_refl eq_refl).
Defined.

(** C4 at the failing input: job [b] has a metadata record and no result; the
    read of the result answers [redis.Nil], the read of the record times out.
    The handler answers 404. *)
Lemma results_fallback_error_is_404 :
  let run := @get_results_by_id Toy.codec "b" Toy.jobs_meta_read_fails in
  stored Toy.jobs_meta_read_fails "job_meta:b" = Some "b|queued"
  ∧ issued Toy.jobs_meta_read_fails run.2 =
      [(GET "job_result:b", false); (GET "job_meta:b", false)]
  ∧ run.1 = mkResponse StatusNotFound (error_body "no result or job not found").
Proof. repeat split. Qed.

Lemma unparsable_meta_is_500_witness :
  let r := (@get_job Toy.codec "c" Toy.jobs).1 in
  code r = StatusInternalServerError
  ∧ (∃ msg, body r = error_body msg)
  ∧ (calm 1 Toy.jobs → body r = error_body "failed to parse job meta").
Proof.
  apply (@unparsable_meta_is_500 Toy.codec "c" Toy.jobs "garbage" "invalid character");
    reflexivity.
Defined.

(** * More of the handlers *)

(** ** What a submission writes *)

Lemma results_key_ne_jobs jobID : RedisResultsPrefix +:+ jobID ≠ RedisJobsList.
Proof. discriminate. Qed.

Lemma results_key_ne_recent jobID : RedisResultsPrefix +:+ jobID ≠ RedisRecentJobsList.
Proof. discriminate. Qed.

Lemma results_key_ne_meta jobID jobID' :
  RedisResultsPrefix +:+ jobID ≠ RedisJobMetaPrefix +:+ jobID'.
Proof. discriminate. Qed.

Lemma meta_key_inj jobID jobID' :
  RedisJobMetaPrefix +:+ jobID = RedisJobMetaPrefix +:+ jobID' → jobID = jobID'.
Proof. intros Heq. by injection Heq. Qed.

Section Effects.
Context `{codec : JSONCodec}.

(** A submission either is not accepted and leaves database and log as they
    were, or is accepted, and then what it wrote is as follows. *)
Lemma post_simulate_effects req jobID now w :
  let r := (post_simulate req jobID now w).1 in
  let w' := (post_simulate req jobID now w).2 in
  (code r ≠ StatusAccepted ∧ db w' = db w ∧ logs w' = logs w ∧
   (issued w w' = [] ∨ ∃ payload, issued w w' = [(RPUSH RedisJobsList payload, false)]))
  ∨ (∃ params bytes ok rest,
       BindJSON req = inl params ∧
       Marshal_JobPayload (mkPayload jobID now (applyDefaults params)) = inl bytes ∧
       code r = StatusAccepted ∧
       issued w w' =
         (RPUSH RedisJobsList bytes, true)
         :: (SET (RedisJobMetaPrefix +:+ jobID)
                 (bytes_or_nil (Marshal_JobMeta (queued_meta jobID now params)))
                 DefaultResultTTL, ok) :: rest ∧
       db w' !! RedisJobsList = Some (RList (list_at (db w) RedisJobsList ++ [bytes])) ∧
       db w' !! (RedisJobMetaPrefix +:+ jobID) =
         (if ok
          then Some (RString (bytes_or_nil (Marshal_JobMeta (queued_meta jobID now params)))
                             DefaultResultTTL)
          else db w !! (RedisJobMetaPrefix +:+ jobID)) ∧
       (if ok then logs w' = logs w
        else ∃ msg, logs w' = logs w ++ ["warning: failed to set job meta: " +:+ msg]) ∧
       (∀ k, k ≠ RedisJobsList → k ≠ RedisJobMetaPrefix +:+ jobID →
             k ≠ RedisRecentJobsList → db w' !! k = db w !! k) ∧
       (∀ c ok', (c, ok') ∈ rest →
          c = LPUSH RedisRecentJobsList jobID ∨
          c = LTRIM RedisRecentJobsList 0 (RecentJobsMaxRetain - 1))).
Proof.
  destruct (post_simulate req jobID now w) as [r w'] eqn:E; simpl.
  unfold post_simulate in E.
  destruct (BindJSON req) as [params|err];
    [| inversion E; subst; left; rewrite issued_refl; simpl; auto 6].
  cbv zeta in E.
  destruct (Marshal_JobPayload _) as [bytes|err] eqn:Hm;
    [| inversion E; subst; left; rewrite issued_refl; simpl; auto 6].
  unfold bind at 1 in E.
  destruct (RPush RedisJobsList bytes w) as [r1 w1] eqn:E1.
  apply RPush_spec in E1 as (T1 & F1 & L1 & D1).
  destruct r1 as [n|e]; cbn [is_ok] in *.
  2: { inversion E; subst. left. cbn. split; [done |]. split; [done |]. split; [done |].
       right. exists bytes. by apply issued_app. }
  right. exists params, bytes.
  unfold bind at 1 in E. fold (queued_meta jobID now params) in E.
  set (metaBytes := bytes_or_nil _) in *.
  destruct (Set_ _ _ _ w1) as [r2 w2] eqn:E2.
  apply Set_spec in E2 as (T2 & F2 & L2 & D2).
  unfold bind at 1 in E.
  match type of E with
  | (let '(_, _) := ?m w2 in _) = _ => destruct (m w2) as [u w2'] eqn:E2'
  end.
  assert (db w2' = db w2 ∧ trace w2' = trace w2 ∧
          (if is_ok r2 then logs w2' = logs w
           else ∃ msg, logs w2' = logs w ++ ["warning: failed to set job meta: " +:+ msg]))
    as (D2' & T2' & L2').
  { destruct r2; inversion E2'; subst; cbn; rewrite ?L2, ?L1; eauto. }
  unfold bind at 1 in E.
  destruct (LPush RedisRecentJobsList jobID w2') as [r3 w3] eqn:E3.
  apply LPush_spec in E3 as (T3 & F3 & L3 & D3).
  unfold bind at 1 in E.
  assert (∃ w4 rest,
            w' = w4 ∧ r = mkResponse StatusAccepted
                            (H [("job_id", VString jobID); ("status", VString StatusQueued)]) ∧
            trace w4 = trace w3 ++ rest ∧ logs w4 = logs w3 ∧
            (∀ k, k ≠ RedisRecentJobsList → db w4 !! k = db w3 !! k) ∧
            (∀ c ok', (c, ok') ∈ rest →
               c = LTRIM RedisRecentJobsList 0 (RecentJobsMaxRetain - 1)))
    as (w4 & rest & -> & -> & T4 & L4 & D4 & R4).
  { destruct r3 as [n3|e3].
    - unfold bind at 1 in E.
      destruct (LTrim _ _ _ w3) as [r4 w4] eqn:E4.
      apply LTrim_spec in E4 as (T4 & F4 & L4 & D4).
      inversion E; subst r w'; clear E.
      exists w4. eexists. do 2 (split; [done |]). split; [exact T4 |]. split; [done |].
      split; [| by intros c ok' [= -> _]%list_elem_of_singleton].
      destruct r4; cbn [is_ok] in D4; [by destruct D4 as (_ & ? & _) |].
      intros k _. by rewrite D4.
    - inversion E; subst r w'; clear E.
      exists w3, []. rewrite app_nil_r.
      do 5 (split; [done |]). by intros c ok' ?%elem_of_nil. }
  assert (∀ k, k ≠ RedisRecentJobsList → db w4 !! k = db w2 !! k) as Dk.
  { intros k Hk. rewrite (D4 k Hk), <- D2'.
    destruct r3; cbn [is_ok] in D3; rewrite D3; [| done].
    by rewrite lookup_insert_ne. }
  exists (is_ok r2). eexists.
  split; [done |]. split; [done |]. split; [done |].
  split.
  { apply issued_app. rewrite T4, T3, T2', T2, T1, <- !app_assoc. reflexivity. }
  split.
  { rewrite (Dk _ recent_key_ne_jobs).
    destruct r2; cbn [is_ok] in D2; rewrite D2, ?D1;
      rewrite ?(lookup_insert_ne _ _ _ _ (jobs_key_ne_meta jobID));
      apply lookup_insert_eq. }
  split.
  { rewrite (Dk _ (recent_key_ne_meta jobID)).
    destruct r2; cbn [is_ok] in *; rewrite D2.
    - apply lookup_insert_eq.
    - rewrite D1. apply lookup_insert_ne. symmetry. apply jobs_key_ne_meta. }
  split.
  { rewrite L4, L3. exact L2'. }
  split.
  { intros k Hjobs Hmeta Hrecent. rewrite (Dk k Hrecent).
    destruct r2; cbn [is_ok] in D2; rewrite D2, ?D1;
      rewrite ?lookup_insert_ne by done; done. }
  intros c ok' [[= -> _] | Hin]%elem_of_cons; [by left | right; eauto].
Qed.

(** X1: An accepted submission has queued its payload: the bytes that
    [json.Marshal] made of [{jobID, now, default-filled params}] are at the
    tail of the queue, behind everything that was there. *)
Theorem accepted_payload_is_queued req jobID now w :
  let r := (post_simulate req jobID now w).1 in
  let w' := (post_simulate req jobID now w).2 in
  code r = StatusAccepted →
  ∃ params bytes,
    BindJSON req = inl params
    ∧ Marshal_JobPayload (mkPayload jobID now (applyDefaults params)) = inl bytes
    ∧ list_at (db w') RedisJobsList = list_at (db w) RedisJobsList ++ [bytes].
Proof.
  cbv zeta. pose proof (post_simulate_effects req jobID now w) as He; cbv zeta in He.
  destruct (post_simulate req jobID now w) as [r w']; cbn [fst snd] in *.
  destruct He as [(Hne & _) | (params & bytes & ok & rest & Hb & Hm & _ & _ & Hq & _)];
    [done |].
  intros _. exists params, bytes. unfold list_at at 1. by rewrite Hq.
Qed.

(** X2: A submission that is not answered 202 is answered 400 or 500 and leaves
    the database and the log exactly as they were. *)
Theorem rejected_submission_changes_nothing req jobID now w :
  let r := (post_simulate req jobID now w).1 in
  let w' := (post_simulate req jobID now w).2 in
  code r ≠ StatusAccepted →
  (code r = StatusBadRequest ∨ code r = StatusInternalServerError)
  ∧ db w' = db w ∧ logs w' = logs w
  ∧ ∀ c ok, (c, ok) ∈ issued w w' → ok = false.
Proof.
  cbv zeta. pose proof (post_simulate_cases req jobID now w) as Hc; cbv zeta in Hc.
  destruct (post_simulate req jobID now w) as [r w']; cbn [fst snd] in *.
  destruct Hc as [[-> Hcode] | [(payload & msg & Hi & Hd & Hl & ->)
                                | (p' & m & ok & rest & -> & _)]]; [| | done].
  - intros _. rewrite issued_refl. do 3 (split; [done |]).
    by intros c ok ?%elem_of_nil.
  - intros _. rewrite Hi. split; [by right |]. do 2 (split; [done |]).
    by intros c ok [= _ <-]%list_elem_of_singleton.
Qed.

(** X3: The metadata write, when it succeeds, stores under [job_meta:<id>] the
    bytes of the record [{id, queued, now, now, default-filled params,
    job_result:<id>}], with the retention of [DefaultResultTTL]. *)
Theorem metadata_record_written req jobID now w key value ttl :
  let w' := (post_simulate req jobID now w).2 in
  (SET key value ttl, true) ∈ issued w w' →
  ∃ params,
    BindJSON req = inl params
    ∧ key = RedisJobMetaPrefix +:+ jobID
    ∧ value = bytes_or_nil (Marshal_JobMeta (queued_meta jobID now params))
    ∧ ttl = DefaultResultTTL
    ∧ db w' !! key = Some (RString value ttl).
Proof.
  cbv zeta. pose proof (post_simulate_effects req jobID now w) as He; cbv zeta in He.
  destruct (post_simulate req jobID now w) as [r w']; cbn [fst snd] in *.
  destruct He as [(_ & _ & _ & [Hi | [p Hi]])
                 | (params & bytes & ok & rest & Hb & _ & _ & Hi & _ & Hk & _ & _ & Hrest)];
    rewrite Hi; intros Hin; [not_among Hin .. |].
  apply elem_of_cons in Hin as [? | Hin]; [done |].
  apply elem_of_cons in Hin as [[= -> -> -> <-] | Hin].
  - exists params. by rewrite Hk.
  - by destruct (Hrest _ _ Hin).
Qed.

(** X4: A submission writes three keys at most. Every result blob, and the
    metadata record of every other job, is as it was. *)
Theorem submission_touches_only_its_keys req jobID now w other :
  let w' := (post_simulate req jobID now w).2 in
  db w' !! (RedisResultsPrefix +:+ other) = db w !! (RedisResultsPrefix +:+ other)
  ∧ (other ≠ jobID →
     db w' !! (RedisJobMetaPrefix +:+ other) = db w !! (RedisJobMetaPrefix +:+ other))
  ∧ ∀ k, k ≠ RedisJobsList → k ≠ RedisJobMetaPrefix +:+ jobID →
         k ≠ RedisRecentJobsList → db w' !! k = db w !! k.
Proof.
  cbv zeta. pose proof (post_simulate_effects req jobID now w) as He; cbv zeta in He.
  destruct (post_simulate req jobID now w) as [r w']; cbn [fst snd] in *.
  assert (∀ k, k ≠ RedisJobsList → k ≠ RedisJobMetaPrefix +:+ jobID →
               k ≠ RedisRecentJobsList → db w' !! k = db w !! k) as Hframe.
  { destruct He as [(_ & -> & _) | (params & bytes & ok & rest & _ & _ & _ & _ & _ & _ & _ & Hf & _)];
      [done | exact Hf]. }
  split; [| split; [| exact Hframe]].
  - apply Hframe; [apply results_key_ne_jobs | apply results_key_ne_meta
                   | apply results_key_ne_recent].
  - intros Hne. apply Hframe; [apply jobs_key_ne_meta | | apply recent_key_ne_meta].
    by intros ?%meta_key_inj.
Qed.
End Effects.

(** ** The queries, case by case *)

Section Queries.
Context `{codec : JSONCodec}.

Lemma get_job_answered jobID w :
  (∀ msg, head (faults w) ≠ Some (Some msg)) →
  (get_job jobID w).1 =
  match db w !! (RedisJobMetaPrefix +:+ jobID) with
  | None => mkResponse StatusNotFound (error_body "job not found")
  | Some (RString s _) =>
      match Unmarshal_JobMeta s with
      | (_, Some _) =>
          mkResponse StatusInternalServerError (error_body "failed to parse job meta")
      | (meta, None) => mkResponse StatusOK (MetaBody meta)
      end
  | Some (RList _) =>
      mkResponse StatusInternalServerError
        (error_body ("redis error: " +:+ Error_string WRONGTYPE))
  end.
Proof.
  intros Hno. unfold get_job, bind.
  destruct (Get (RedisJobMetaPrefix +:+ jobID) w) as [r1 w1] eqn:E1.
  apply Get_spec in E1 as (_ & _ & _ & _ & [(msg & Hf & _) | [_ ->]]);
    [by destruct (Hno msg) |].
  destruct (db w !! (RedisJobMetaPrefix +:+ jobID)) as [[s ttl|l]|]; [| done ..].
  by destruct (Unmarshal_JobMeta s) as [m [e|]].
Qed.

Lemma get_job_faulted jobID w msg :
  head (faults w) = Some (Some msg) →
  (get_job jobID w).1 =
  mkResponse StatusInternalServerError (error_body ("redis error: " +:+ msg)).
Proof.
  intros Hf. unfold get_job, bind.
  destruct (Get (RedisJobMetaPrefix +:+ jobID) w) as [r1 w1] eqn:E1.
  apply Get_spec in E1 as (_ & _ & _ & _ & [(msg' & Hf' & ->) | [Hno _]]).
  - rewrite Hf in Hf'. by injection Hf' as ->.
  - by destruct (Hno msg).
Qed.

Lemma get_results_by_id_answered jobID w :
  calm 2 w →
  (get_results_by_id jobID w).1 =
  match db w !! (RedisResultsPrefix +:+ jobID) with
  | Some (RString res _) =>
      mkResponse StatusOK
        (H [("job_id", VString jobID); ("status", VString StatusDone);
            ("result", match Unmarshal_any res with
                       | Some parsed => VJSON parsed
                       | None => VString res
                       end)])
  | Some (RList _) =>
      mkResponse StatusInternalServerError
        (error_body ("redis error: " +:+ Error_string WRONGTYPE))
  | None =>
      match db w !! (RedisJobMetaPrefix +:+ jobID) with
      | Some (RString s _) =>
          mkResponse StatusOK
            (H [("job_id", VString jobID);
                ("status", VString (Status (Unmarshal_JobMeta s).1))])
      | _ => mkResponse StatusNotFound (error_body "no result or job not found")
      end
  end.
Proof.
  intros Hcalm.
  destruct (get_results_by_id jobID w) as [r w'] eqn:E; cbn [fst].
  unfold get_results_by_id in E. unfold bind at 1 in E.
  destruct (Get (RedisResultsPrefix +:+ jobID) w) as [r1 w1] eqn:E1.
  apply Get_spec in E1 as (_ & F1 & _ & D1 & [(msg & Hf & _) | [_ ->]]);
    [by destruct (calm_head _ _ Hcalm msg) |].
  pose proof (calm_tail _ _ _ F1 Hcalm) as Hcalm1.
  destruct (db w !! (RedisResultsPrefix +:+ jobID)) as [[res ttl|l]|].
  - destruct (Unmarshal_any res); by inversion E.
  - by inversion E.
  - unfold bind in E.
    destruct (Get (RedisJobMetaPrefix +:+ jobID) w1) as [r2 w2] eqn:E2.
    apply Get_spec in E2 as (_ & _ & _ & _ & [(msg & Hf & _) | [_ ->]]);
      [by destruct (calm_head _ _ Hcalm1 msg) |].
    rewrite D1 in E.
    destruct (db w !! (RedisJobMetaPrefix +:+ jobID)) as [[s ttl|l]|]; by inversion E.
Qed.

(** X5: If the metadata write fails the submission is accepted all the same and
    a warning is logged; the id having no record, a metadata query that the
    store then answers says 404: the queued job cannot be seen. *)
Theorem failed_metadata_write_hides_job req jobID now w key value ttl :
  let r := (post_simulate req jobID now w).1 in
  let w' := (post_simulate req jobID now w).2 in
  (SET key value ttl, false) ∈ issued w w' →
  absent w (RedisJobMetaPrefix +:+ jobID) →
  calm 1 w' →
  code r = StatusAccepted
  ∧ (∃ msg, logs w' = logs w ++ ["warning: failed to set job meta: " +:+ msg])
  ∧ (get_job jobID w').1 = mkResponse StatusNotFound (error_body "job not found").
Proof.
  cbv zeta. pose proof (post_simulate_effects req jobID now w) as He; cbv zeta in He.
  destruct (post_simulate req jobID now w) as [r w']; cbn [fst snd] in *.
  destruct He as [(_ & _ & _ & [Hi | [p Hi]])
                 | (params & bytes & ok & rest & _ & _ & Hr & Hi & _ & Hk & Hl & _ & Hrest)];
    rewrite Hi; intros Hin Habs Hcalm; [not_among Hin .. |].
  apply elem_of_cons in Hin as [? | Hin]; [done |].
  apply elem_of_cons in Hin as [[= _ _ _ <-] | Hin];
    [| by destruct (Hrest _ _ Hin)].
  do 2 (split; [done |]).
  rewrite (get_job_answered jobID w' (calm_head _ _ Hcalm)), Hk. by rewrite Habs.
Qed.

(** X6: After a submission whose metadata write succeeded, a metadata query that
    the store answers never says 404: it returns the record that
    [json.Unmarshal] reads back from the stored bytes. *)
Theorem submitted_job_is_found req jobID now w key value ttl :
  let w' := (post_simulate req jobID now w).2 in
  (SET key value ttl, true) ∈ issued w w' →
  calm 1 w' →
  code (get_job jobID w').1 ≠ StatusNotFound
  ∧ ∀ meta, Unmarshal_JobMeta value = (meta, None) →
            (get_job jobID w').1 = mkResponse StatusOK (MetaBody meta).
Proof.
  cbv zeta. pose proof (post_simulate_effects req jobID now w) as He; cbv zeta in He.
  destruct (post_simulate req jobID now w) as [r w']; cbn [fst snd] in *.
  destruct He as [(_ & _ & _ & [Hi | [p Hi]])
                 | (params & bytes & ok & rest & _ & _ & Hr & Hi & _ & Hk & _ & _ & Hrest)];
    rewrite Hi; intros Hin Hcalm; [not_among Hin .. |].
  apply elem_of_cons in Hin as [? | Hin]; [done |].
  apply elem_of_cons in Hin as [[= _ -> _ <-] | Hin];
    [| by destruct (Hrest _ _ Hin)].
  rewrite (get_job_answered jobID w' (calm_head _ _ Hcalm)), Hk.
  split.
  - by destruct (Unmarshal_JobMeta _) as [m [e|]].
  - by intros meta ->.
Qed.

(** X7: After a submission whose metadata write succeeded, and as long as no
    result is stored for the id, a result query that the store answers
    reports the status read back from the stored record, without a result. *)
Theorem submitted_job_reports_its_status req jobID now w key value ttl :
  let w' := (post_simulate req jobID now w).2 in
  (SET key value ttl, true) ∈ issued w w' →
  absent w (RedisResultsPrefix +:+ jobID) →
  calm 2 w' →
  (get_results_by_id jobID w').1 =
  mkResponse StatusOK
    (H [("job_id", VString jobID);
        ("status", VString (Status (Unmarshal_JobMeta value).1))]).
Proof.
  cbv zeta. pose proof (post_simulate_effects req jobID now w) as He; cbv zeta in He.
  destruct (post_simulate req jobID now w) as [r w']; cbn [fst snd] in *.
  destruct He as [(_ & _ & _ & [Hi | [p Hi]])
                 | (params & bytes & ok & rest & _ & _ & Hr & Hi & _ & Hk & _ & Hf & Hrest)];
    rewrite Hi; intros Hin Habs Hcalm; [not_among Hin .. |].
  apply elem_of_cons in Hin as [? | Hin]; [done |].
  apply elem_of_cons in Hin as [[= _ -> _ <-] | Hin];
    [| by destruct (Hrest _ _ Hin)].
  rewrite (get_results_by_id_answered jobID w' Hcalm), Hk.
  rewrite (Hf _ (results_key_ne_jobs jobID) (results_key_ne_meta jobID jobID)
              (results_key_ne_recent jobID)).
  by rewrite Habs.
Qed.

(** X13: The metadata query, when the store answers the read: 404 for an id
    without record, and for an id whose record parses, 200 with that record. *)
Theorem metadata_query_resolution jobID w :
  calm 1 w →
  let r := (get_job jobID w).1 in
  (absent w (RedisJobMetaPrefix +:+ jobID) →
   r = mkResponse StatusNotFound (error_body "job not found"))
  ∧ (∀ s meta, stored w (RedisJobMetaPrefix +:+ jobID) = Some s →
               Unmarshal_JobMeta s = (meta, None) →
               r = mkResponse StatusOK (MetaBody meta)).
Proof.
  intros Hcalm. cbv zeta. rewrite (get_job_answered jobID w (calm_head _ _ Hcalm)).
  split.
  - by intros ->.
  - intros s meta (ttl & ->)%stored_lookup ->. done.
Qed.

(** X14: The metadata query answers 500 with the store's message when the read
    fails with anything but [redis.Nil]: an injected error, or WRONGTYPE when
    the key holds a list. *)
Theorem metadata_query_store_error jobID w msg :
  head (faults w) = Some (Some msg)
  ∨ (calm 1 w ∧ (∃ l, db w !! (RedisJobMetaPrefix +:+ jobID) = Some (RList l))
     ∧ msg = Error_string WRONGTYPE) →
  (get_job jobID w).1 =
  mkResponse StatusInternalServerError (error_body ("redis error: " +:+ msg)).
Proof.
  intros [Hf | (Hcalm & [l Hl] & ->)].
  - by apply get_job_faulted.
  - by rewrite (get_job_answered jobID w (calm_head _ _ Hcalm)), Hl.
Qed.

(** X15: The result query answers 500 with the store's message when the read of
    the result fails with anything but [redis.Nil]. *)
Theorem result_query_store_error jobID w msg :
  head (faults w) = Some (Some msg)
  ∨ (calm 1 w ∧ (∃ l, db w !! (RedisResultsPrefix +:+ jobID) = Some (RList l))
     ∧ msg = Error_string WRONGTYPE) →
  (get_results_by_id jobID w).1 =
  mkResponse StatusInternalServerError (error_body ("redis error: " +:+ msg)).
Proof.
  intros Hcase. unfold get_results_by_id, bind.
  destruct (Get (RedisResultsPrefix +:+ jobID) w) as [r1 w1] eqn:E1.
  apply Get_spec in E1 as (_ & _ & _ & _ & [(msg' & Hf' & ->) | [Hno ->]]);
    destruct Hcase as [Hf | (Hcalm & [l Hl] & ->)].
  - rewrite Hf in Hf'. by injection Hf' as ->.
  - by destruct (calm_head _ _ Hcalm msg').
  - by destruct (Hno msg).
  - by rewrite Hl.
Qed.

(** X16: A stored result is authoritative: when the read of the result is
    answered and the blob is there, the answer is [done] with the blob, and
    the metadata record is not read at all. *)
Theorem result_blob_is_authoritative jobID w res :
  calm 1 w →
  stored w (RedisResultsPrefix +:+ jobID) = Some res →
  let r := (get_results_by_id jobID w).1 in
  let w' := (get_results_by_id jobID w).2 in
  r = mkResponse StatusOK
        (H [("job_id", VString jobID); ("status", VString "done");
            ("result", match Unmarshal_any res with
                       | Some parsed => VJSON parsed
                       | None => VString res
                       end)])
  ∧ issued w w' = [(GET (RedisResultsPrefix +:+ jobID), true)].
Proof.
  intros Hcalm (ttl & Hres)%stored_lookup. cbv zeta.
  destruct (get_results_by_id jobID w) as [r w'] eqn:E; cbn [fst snd].
  unfold get_results_by_id in E. unfold bind at 1 in E.
  destruct (Get (RedisResultsPrefix +:+ jobID) w) as [r1 w1] eqn:E1.
  apply Get_spec in E1 as (T1 & _ & _ & _ & [(msg & Hf & _) | [_ ->]]);
    [by destruct (calm_head _ _ Hcalm msg) |].
  rewrite Hres in E, T1.
  destruct (Unmarshal_any res); inversion E; subst; (split; [done |]);
    by apply issued_app.
Qed.

(** X17: The three queries only read: whatever the store does, the database and
    the log are as before and no writing command is issued. *)
Theorem queries_only_read jobID w :
  (db (get_results_by_id jobID w).2 = db w
   ∧ logs (get_results_by_id jobID w).2 = logs w
   ∧ Forall (λ ev, is_write ev.1 = false) (issued w (get_results_by_id jobID w).2))
  ∧ (db (get_job jobID w).2 = db w
     ∧ logs (get_job jobID w).2 = logs w
     ∧ Forall (λ ev, is_write ev.1 = false) (issued w (get_job jobID w).2))
  ∧ (db (get_results w).2 = db w
     ∧ logs (get_results w).2 = logs w
     ∧ Forall (λ ev, is_write ev.1 = false) (issued w (get_results w).2)).
Proof.
  split; [| split].
  - destruct (get_results_by_id jobID w) as [r w'] eqn:E; cbn [fst snd].
    unfold get_results_by_id in E. unfold bind at 1 in E.
    destruct (Get (RedisResultsPrefix +:+ jobID) w) as [r1 w1] eqn:E1.
    apply Get_spec in E1 as (T1 & _ & L1 & D1 & _).
    assert (w' = w1 ∨ ∃ r2, Get (RedisJobMetaPrefix +:+ jobID) w1 = (r2, w')) as [-> | [r2 E2]].
    { destruct r1 as [res | [|msg]].
      - destruct (Unmarshal_any res); inversion E; auto.
      - unfold bind in E.
        destruct (Get (RedisJobMetaPrefix +:+ jobID) w1) as [r2 w2] eqn:E2.
        right. exists r2. destruct r2; by inversion E.
      - inversion E; auto. }
    + do 2 (split; [done |]). rewrite (issued_app _ _ _ T1). by repeat constructor.
    + apply Get_spec in E2 as (T2 & _ & L2 & D2 & _).
      split; [by rewrite D2 |]. split; [by rewrite L2 |].
      rewrite T1, <- app_assoc in T2. rewrite (issued_app _ _ _ T2).
      by repeat constructor.
  - destruct (get_job jobID w) as [r w'] eqn:E; cbn [fst snd].
    unfold get_job, bind in E.
    destruct (Get (RedisJobMetaPrefix +:+ jobID) w) as [r1 w1] eqn:E1.
    apply Get_spec in E1 as (T1 & _ & L1 & D1 & _).
    assert (w' = w1) as ->.
    { destruct r1 as [s | [|msg]]; [| by inversion E ..].
      destruct (Unmarshal_JobMeta s) as [m [e|]]; by inversion E. }
    do 2 (split; [done |]). rewrite (issued_app _ _ _ T1). by repeat constructor.
  - destruct (get_results w) as [r w'] eqn:E; cbn [fst snd].
    unfold get_results, bind in E.
    destruct (LRange RedisRecentJobsList 0 49 w) as [r1 w1] eqn:E1.
    apply LRange_spec in E1 as (T1 & _ & L1 & D1 & _).
    assert (w' = w1) as -> by (destruct r1 as [ids | [|msg]]; by inversion E).
    do 2 (split; [done |]). rewrite (issued_app _ _ _ T1). by repeat constructor.
Qed.

(** X18: The listing, when the store answers: the first 50 ids of the stored
    index, in its order; the empty list when there is no index. *)
Theorem listing_is_head_of_index w :
  calm 1 w → list_or_absent w RedisRecentJobsList →
  ∃ ids,
    listed (get_results w).1 = Some ids
    ∧ ids = take 50 (recent_ids w)
    ∧ (length ids ≤ 50)%nat
    ∧ (absent w RedisRecentJobsList → ids = []).
Proof.
  intros Hcalm Hrecent. exists (take 50 (recent_ids w)).
  rewrite (get_results_healthy w Hcalm Hrecent).
  split; [done |]. split; [done |]. split; [rewrite length_take; lia |].
  intros Habs. unfold recent_ids, list_at. by rewrite Habs.
Qed.

(** X19: The listing answers 500 with the store's message when LRANGE fails. *)
Theorem listing_store_error w msg :
  head (faults w) = Some (Some msg)
  ∨ (calm 1 w ∧ (∃ s ttl, db w !! RedisRecentJobsList = Some (RString s ttl))
     ∧ msg = Error_string WRONGTYPE) →
  (get_results w).1 =
  mkResponse StatusInternalServerError (error_body ("redis error: " +:+ msg)).
Proof.
  intros Hcase. unfold get_results, bind.
  destruct (LRange RedisRecentJobsList 0 49 w) as [r1 w1] eqn:E1.
  apply LRange_spec in E1 as (_ & _ & _ & _ & [(msg' & Hf' & ->) | [Hno ->]]);
    destruct Hcase as [Hf | (Hcalm & (s & ttl & Hl) & ->)].
  - rewrite Hf in Hf'. by injection Hf' as ->.
  - by destruct (calm_head _ _ Hcalm msg').
  - by destruct (Hno msg).
  - by rewrite Hl.
Qed.
End Queries.

(** ** The recency index and the queue over a run *)

Section Runs.
Context `{codec : JSONCodec}.

(** X8: Once the trim is carried out the index is the new id followed by the ids
    it held, in their order, cut to the first hundred: newest first, and only
    the oldest are dropped. *)
Theorem newest_id_heads_index req jobID now w :
  let w' := (post_simulate req jobID now w).2 in
  (LTRIM RedisRecentJobsList 0 (RecentJobsMaxRetain - 1), true) ∈ issued w w' →
  recent_ids w' = take 100 (jobID :: recent_ids w)
  ∧ head (recent_ids w') = Some jobID.
Proof.
  cbv zeta. pose proof (post_simulate_cases req jobID now w) as Hc; cbv zeta in Hc.
  destruct (post_simulate req jobID now w) as [r w']; cbn [fst snd] in *.
  destruct Hc as [[Hw _] | [(payload' & msg & Hi & _)
                            | (p' & m & ok & rest & _ & Hi & Hrest)]].
  - rewrite Hw, issued_refl. by intros ?%elem_of_nil.
  - rewrite Hi. intros Hin. not_among Hin.
  - rewrite Hi. intros Hin.
    destruct Hrest as [[-> _] | [[-> _] | [-> ->]]]; [not_among Hin .. |].
    done.
Qed.

(** X9: When the head push fails the submission is accepted all the same, the
    index is as it was, and no trim is sent. *)
Theorem failed_push_skips_trim req jobID now w key value :
  let r := (post_simulate req jobID now w).1 in
  let w' := (post_simulate req jobID now w).2 in
  (LPUSH key value, false) ∈ issued w w' →
  code r = StatusAccepted
  ∧ recent_ids w' = recent_ids w
  ∧ ∀ k a b ok, (LTRIM k a b, ok) ∉ issued w w'.
Proof.
  cbv zeta. pose proof (post_simulate_cases req jobID now w) as Hc; cbv zeta in Hc.
  destruct (post_simulate req jobID now w) as [r w']; cbn [fst snd] in *.
  destruct Hc as [[Hw _] | [(payload' & msg & Hi & _)
                            | (p' & m & ok & rest & -> & Hi & Hrest)]].
  - rewrite Hw, issued_refl. by intros ?%elem_of_nil.
  - rewrite Hi. intros Hin. not_among Hin.
  - rewrite Hi. intros Hin.
    destruct Hrest as [[-> ->] | [[-> _] | [-> _]]]; [| not_among Hin ..].
    do 2 (split; [done |]). intros k a b ok' Hin'. not_among Hin'.
Qed.

(** X10: When the trim fails the submission is accepted all the same and the
    index keeps the pushed id in front of everything it held: nothing is cut. *)
Theorem failed_trim_keeps_everything req jobID now w key start stop :
  let r := (post_simulate req jobID now w).1 in
  let w' := (post_simulate req jobID now w).2 in
  (LTRIM key start stop, false) ∈ issued w w' →
  code r = StatusAccepted
  ∧ recent_ids w' = jobID :: recent_ids w.
Proof.
  cbv zeta. pose proof (post_simulate_cases req jobID now w) as Hc; cbv zeta in Hc.
  destruct (post_simulate req jobID now w) as [r w']; cbn [fst snd] in *.
  destruct Hc as [[Hw _] | [(payload' & msg & Hi & _)
                            | (p' & m & ok & rest & -> & Hi & Hrest)]].
  - rewrite Hw, issued_refl. by intros ?%elem_of_nil.
  - rewrite Hi. intros Hin. not_among Hin.
  - rewrite Hi. intros Hin.
    destruct Hrest as [[-> _] | [[-> ->] | [-> _]]]; [not_among Hin | done | not_among Hin].
Qed.

(** The payload that a request puts on the queue. *)
Lemma queue_after_healthy_run reqs w :
  Forall well_formed reqs → calm (4 * length reqs) w →
  list_or_absent w RedisJobsList → list_or_absent w RedisRecentJobsList →
  let w' := (submit_all reqs w).2 in
  ∃ payloads,
    list_at (db w') RedisJobsList = list_at (db w) RedisJobsList ++ payloads
    ∧ Forall2 (λ req bytes,
                 ∃ params, BindJSON req.1.1 = inl params ∧
                   Marshal_JobPayload
                     (mkPayload req.1.2 req.2 (applyDefaults params)) = inl bytes)
              reqs payloads.
Proof.
  revert w. induction reqs as [|[[req jobID] now] reqs IH]; intros w Hwf Hcalm Hjobs Hrecent.
  - exists []. cbn. rewrite app_nil_r. by split.
  - apply Forall_cons in Hwf as [Hwf1 Hwf].
    cbv zeta. rewrite submit_all_cons.
    assert (Hcalm4 : calm 4 w) by (revert Hcalm; apply calm_le; simpl; lia).
    pose proof (post_simulate_healthy req jobID now w Hwf1 Hcalm4 Hjobs Hrecent) as Hp.
    pose proof (post_simulate_effects req jobID now w) as He.
    cbv zeta in Hp, He.
    destruct (post_simulate req jobID now w) as [r w1]; cbn [fst snd] in Hp, He.
    destruct Hp as (Hr & _ & Hf & Hjobs1 & Hrecent1).
    destruct He as [(Hne & _) | (params & bytes & ok & rest & Hb & Hm & _ & _ & Hq & _)];
      [done |].
    assert (Hcalm1 : calm (4 * length reqs) w1).
    { apply (calm_drop 4 _ w _ Hf).
      replace (4 + 4 * length reqs)%nat with (4 * length (((req, jobID), now) :: reqs))%nat
        by (simpl; lia). done. }
    specialize (IH w1 Hwf Hcalm1 Hjobs1 Hrecent1). cbv zeta in IH.
    destruct (submit_all reqs w1) as [rs w']; cbn [fst snd] in *.
    destruct IH as (payloads & Hq' & Hall).
    exists (bytes :: payloads). split.
    + rewrite Hq'. unfold list_at at 1. rewrite Hq. by rewrite <- app_assoc.
    + constructor; [| done]. by exists params.
Qed.

(** X12: Over a run of submissions that nothing hinders, every one is accepted,
    the queue grows by their payloads in submission order, and the listing
    shows the ids newest first, in front of those the index held, 50 at most. *)
Theorem run_is_queued_and_listed reqs w :
  reqs ≠ [] → Forall well_formed reqs → calm (4 * length reqs + 1) w →
  list_or_absent w RedisJobsList → list_or_absent w RedisRecentJobsList →
  let w' := (submit_all reqs w).2 in
  Forall (λ r, code r = StatusAccepted) (submit_all reqs w).1
  ∧ (∃ payloads,
       list_at (db w') RedisJobsList = list_at (db w) RedisJobsList ++ payloads
       ∧ Forall2 (λ req bytes,
                    ∃ params, BindJSON req.1.1 = inl params ∧
                      Marshal_JobPayload
                        (mkPayload req.1.2 req.2 (applyDefaults params)) = inl bytes)
                 reqs payloads)
  ∧ listed (get_results w').1 = Some (take 50 (reverse (job_ids reqs) ++ recent_ids w))
  ∧ (recent_ids w = [] → (length reqs ≤ 50)%nat →
     listed (get_results w').1 = Some (reverse (job_ids reqs))).
Proof.
  intros Hne Hwf Hcalm Hjobs Hrecent. cbv zeta.
  assert (Hcalm0 : calm (4 * length reqs) w) by (revert Hcalm; apply calm_le; lia).
  pose proof (submit_all_healthy reqs w Hwf Hcalm0 Hjobs Hrecent) as Hs.
  pose proof (queue_after_healthy_run reqs w Hwf Hcalm0 Hjobs Hrecent) as Hq.
  cbv zeta in Hs, Hq.
  destruct (submit_all reqs w) as [rs w']; cbn [fst snd] in *.
  destruct Hs as (Hrs & Hids & Hf & Hrecent').
  rewrite push_all_capped in Hids
    by (unfold job_ids; intros Hnil%fmap_nil_inv; done).
  assert (Hcalm' : calm 1 w') by (exact (calm_drop _ _ _ _ Hf Hcalm)).
  assert (listed (get_results w').1 =
          Some (take 50 (reverse (job_ids reqs) ++ recent_ids w))) as Hl.
  { rewrite (get_results_healthy w' Hcalm' Hrecent'). cbn. f_equal.
    rewrite Hids, take_take. done. }
  do 3 (split; [done |]).
  intros Hnil Hlen. rewrite Hl, Hnil, app_nil_r. f_equal.
  apply take_ge. rewrite length_reverse. unfold job_ids. rewrite length_fmap. lia.
Qed.
End Runs.

(** ** Default-filling: what is always set, and what passes unchanged *)

Lemma filled_always_set p :
  (∀ f, f ≠ f_C → default_of f ≠ None → is_Some (get f (filled p)))
  ∧ (is_Some (C (filled p)) ∨ is_Some (ThermalMassKg (filled p))).
Proof.
  destruct p as [tm tmk cp vr ud un ag tg ach vol c ti sp la lo sd ed hm er fs].
  split.
  - intros f Hf Hd.
    destruct f; unfold filled, get, default_of in *; reduce_fields; try done;
      match goal with |- is_Some (or_default ?x _) => destruct x; cbn; eauto end.
  - unfold filled; reduce_fields. destruct c, tmk; cbn; eauto.
Qed.

(** X21: After default-filling each of the eleven fields with an unconditional
    default is set, and so is at least one of [C] and [thermal_mass_kg]. *)
Theorem defaulted_fields_always_set (p : SimulationParams) :
  (∀ f, f ≠ f_C → default_of f ≠ None → is_Some (get f (applyDefaults p)))
  ∧ (is_Some (C (applyDefaults p)) ∨ is_Some (ThermalMassKg (applyDefaults p))).
Proof. rewrite applyDefaults_filled. apply filled_always_set. Qed.

(** X22: Default-filling leaves a record as it is exactly when the eleven fields
    with an unconditional default are set and one of [C] and
    [thermal_mass_kg] is. *)
Theorem applyDefaults_fixed_points (p : SimulationParams) :
  applyDefaults p = p
  ↔ (∀ f, f ≠ f_C → default_of f ≠ None → is_Some (get f p))
    ∧ (is_Some (C p) ∨ is_Some (ThermalMassKg p)).
Proof.
  rewrite applyDefaults_filled. split.
  - intros Heq. rewrite <- Heq. apply filled_always_set.
  - intros [Hall Hc].
    pose proof (Hall f_A_glass ltac:(done) ltac:(done)) as [? H1].
    pose proof (Hall f_tau_glass ltac:(done) ltac:(done)) as [? H2].
    pose proof (Hall f_U_day ltac:(done) ltac:(done)) as [? H3].
    pose proof (Hall f_U_night ltac:(done) ltac:(done)) as [? H4].
    pose proof (Hall f_ACH ltac:(done) ltac:(done)) as [? H5].
    pose proof (Hall f_V ltac:(done) ltac:(done)) as [? H6].
    pose proof (Hall cp_mass ltac:(done) ltac:(done)) as [? H7].
    pose proof (Hall f_T_init ltac:(done) ltac:(done)) as [? H8].
    pose proof (Hall setpoint ltac:(done) ltac:(done)) as [? H9].
    pose proof (Hall heater_max_w ltac:(done) ltac:(done)) as [? H10].
    pose proof (Hall fraction_solar_to_air ltac:(done) ltac:(done)) as [? H11].
    clear Hall.
    destruct p as [tm tmk cp vr ud un ag tg ach vol c ti sp la lo sd ed hm er fs].
    unfold get in *; cbn in *.
    subst. unfold filled; reduce_fields. cbn [or_default].
    destruct Hc as [[? ->] | [? ->]]; [done |]. by destruct c.
Qed.

(** ** The answers of the handlers *)

Section Codes.
Context `{codec : JSONCodec}.

(** X20: Each handler answers with one of its codes only: 202, 400 or 500 for a
    submission; 200, 404 or 500 for the two queries by id; 200 or 500 for the
    listing. *)
Theorem handlers_answer_their_codes req jobID now w :
  (code (post_simulate req jobID now w).1 = StatusAccepted
   ∨ code (post_simulate req jobID now w).1 = StatusBadRequest
   ∨ code (post_simulate req jobID now w).1 = StatusInternalServerError)
  ∧ (code (get_results_by_id jobID w).1 = StatusOK
     ∨ code (get_results_by_id jobID w).1 = StatusNotFound
     ∨ code (get_results_by_id jobID w).1 = StatusInternalServerError)
  ∧ (code (get_job jobID w).1 = StatusOK
     ∨ code (get_job jobID w).1 = StatusNotFound
     ∨ code (get_job jobID w).1 = StatusInternalServerError)
  ∧ (code (get_results w).1 = StatusOK
     ∨ code (get_results w).1 = StatusInternalServerError).
Proof.
  split; [| split; [| split]].
  - pose proof (post_simulate_cases req jobID now w) as Hc; cbv zeta in Hc.
    destruct Hc as [[_ [? | ?]] | [(p & msg & _ & _ & _ & ->)
                                  | (p & m & ok & rest & -> & _)]]; auto.
  - destruct (get_results_by_id jobID w) as [r w'] eqn:E; cbn [fst].
    unfold get_results_by_id in E. unfold bind at 1 in E.
    destruct (Get (RedisResultsPrefix +:+ jobID) w) as [[res | [|msg]] w1].
    + destruct (Unmarshal_any res); inversion E; cbn; auto.
    + unfold bind in E.
      destruct (Get (RedisJobMetaPrefix +:+ jobID) w1) as [[s | e] w2];
        inversion E; cbn; auto.
    + inversion E; cbn; auto.
  - destruct (get_job jobID w) as [r w'] eqn:E; cbn [fst].
    unfold get_job, bind in E.
    destruct (Get (RedisJobMetaPrefix +:+ jobID) w) as [[s | [|msg]] w1];
      [| inversion E; cbn; auto ..].
    destruct (Unmarshal_JobMeta s) as [m [e|]]; inversion E; cbn; auto.
  - destruct (get_results w) as [r w'] eqn:E; cbn [fst].
    unfold get_results, bind in E.
    destruct (LRange RedisRecentJobsList 0 49 w) as [[ids | [|msg]] w1];
      inversion E; cbn; auto.
Qed.
End Codes.

(** ** The client poller *)

Lemma is_string_true v s : is_string v s = true → v = Some (JString s).
Proof.
  destruct v as [[| | |s'| |]|]; cbn; try done.
  by intros ->%String.eqb_eq.
Qed.

Lemma poll_returns_done start maxWait clock :
  ∀ fetches response n,
    poll start maxWait clock fetches = Some (Returns response, n) →
    status_of response = Returns (Some (JString "done"))
    ∧ (1 ≤ n)%nat
    ∧ fetches !! (n - 1)%nat = Some (Returns response)
    ∧ Forall (λ o, ∃ resp, o = Returns resp ∧ pending_response resp)
             (take (n - 1) fetches).
Proof.
  induction clock as [|t clock IH]; intros fetches response n; cbn; [done |].
  destruct (t - start <? maxWait); [| done].
  destruct fetches as [|[resp|e] fetches]; [done | | done].
  destruct (status_of resp) as [st|e] eqn:Hst; [| done].
  destruct (is_string st "done") eqn:Hdone.
  - intros [= -> <-]. apply is_string_true in Hdone as ->. cbn.
    repeat split; done.
  - destruct (is_string st "error") eqn:Herr; [done |].
    destruct (poll start maxWait clock fetches) as [[o m]|] eqn:Hp; [| done].
    intros [= -> <-]. apply IH in Hp as (Hs & Hm & Hl & Hall).
    split; [done |]. split; [lia |].
    destruct m as [|m]; [lia |]. cbn in *. rewrite Nat.sub_0_r in *.
    split; [done |]. constructor; [| done].
    exists resp. split; [done |]. by exists st.
Qed.

(** X24: The poller returns only a response whose status is ["done"]: it is the
    last one fetched, and every response before it had another status than
    ["done"] and ["error"]. *)
Theorem poller_returns_only_done maxWait clock fetches response n :
  getJobResults maxWait clock fetches = Some (Returns response, n) →
  status_of response = Returns (Some (JString "done"))
  ∧ (1 ≤ n)%nat
  ∧ fetches !! (n - 1)%nat = Some (Returns response)
  ∧ Forall (λ o, ∃ resp, o = Returns resp ∧ pending_response resp)
           (take (n - 1) fetches).
Proof.
  unfold getJobResults. destruct clock as [|start clock]; [done |].
  apply poll_returns_done.
Qed.

Lemma poll_cons start maxWait t clock fetches :
  poll start maxWait (t :: clock) fetches =
  if t - start <? maxWait then
    match fetches with
    | [] => None
    | Throws e :: _ => Some (Throws e, 1%nat)
    | Returns response :: fetches' =>
        match status_of response with
        | Throws e => Some (Throws e, 1%nat)
        | Returns st =>
            if is_string st "done" then Some (Returns response, 1%nat)
            else if is_string st "error" then
              Some (Throws (JsError ("Job failed: " +:+ "error")), 1%nat)
            else
              match poll start maxWait clock fetches' with
              | Some (o, n) => Some (o, S n)
              | None => None
              end
        end
    end
  else Some (Throws (JsError "Timeout waiting for job results"), 0%nat).
Proof. reflexivity. Qed.

Lemma poll_requests_bounded start maxWait clock :
  ∀ t d fetches o n,
    poll start maxWait (t :: clock) fetches = Some (o, n) →
    paced t clock → start + d ≤ t → (1 ≤ n)%nat →
    d + 2000 * (Z.of_nat n - 1) < maxWait.
Proof.
  induction clock as [|t' clock IH]; intros t d fetches o n.
  - cbn. destruct (Z.ltb_spec (t - start) maxWait); [| intros [= _ <-]; lia].
    destruct fetches as [|[resp|e] fetches]; [done | | intros [= _ <-]; lia].
    destruct (status_of resp) as [st|e]; [| intros [= _ <-]; lia].
    destruct (is_string st "done"); [intros [= _ <-]; lia |].
    destruct (is_string st "error"); [intros [= _ <-]; lia | done].
  - intros Hp [Hpace Hrest] Hd Hn. rewrite poll_cons in Hp.
    destruct (Z.ltb_spec (t - start) maxWait); [| injection Hp as _ <-; lia].
    destruct fetches as [|[resp|e] fetches]; [done | | injection Hp as _ <-; lia].
    destruct (status_of resp) as [st|e]; [| injection Hp as _ <-; lia].
    destruct (is_string st "done"); [injection Hp as _ <-; lia |].
    destruct (is_string st "error"); [injection Hp as _ <-; lia |].
    destruct (poll start maxWait (t' :: clock) fetches) as [[o' m]|] eqn:Hp'; [| done].
    injection Hp as _ <-.
    destruct m as [|m]; [lia |].
    pose proof (IH t' (d + 2000) fetches o' (S m) Hp' Hrest ltac:(lia) ltac:(lia)).
    lia.
Qed.

(** X25: With two seconds at least between the checks of the clock, the poller
    sends its n-th request only while 2000 (n - 1) milliseconds are less than
    [maxWait]: the number of requests is bounded by the time allowed. *)
Theorem poller_requests_bounded maxWait start t clock fetches o n :
  getJobResults maxWait (start :: t :: clock) fetches = Some (o, n) →
  start ≤ t → paced t clock → (1 ≤ n)%nat →
  2000 * (Z.of_nat n - 1) < maxWait.
Proof.
  unfold getJobResults. intros Hp Hst Hpace Hn.
  pose proof (poll_requests_bounded start maxWait clock t 0 fetches o n Hp Hpace
                ltac:(lia) Hn).
  lia.
Qed.

(** X26: The poller does not retry: after responses that keep it waiting, the
    first request that fails ends the call with that very error. *)
Theorem poller_stops_at_first_error maxWait start clock pendings e more :
  Forall pending_response pendings →
  length clock = S (length pendings) →
  Forall (λ t, t - start < maxWait) clock →
  getJobResults maxWait (start :: clock) ((Returns <$> pendings) ++ Throws e :: more)
  = Some (Throws e, S (length pendings)).
Proof.
  unfold getJobResults. revert clock.
  induction pendings as [|resp pendings IH]; intros clock Hpend Hlen Hclock.
  - destruct clock as [|t clock]; [done |]. apply Forall_cons in Hclock as [Ht _].
    cbn. by destruct (Z.ltb_spec (t - start) maxWait); [| lia].
  - destruct clock as [|t clock]; [done |].
    apply Forall_cons in Hclock as [Ht Hclock].
    apply Forall_cons in Hpend as [(st & Hst & Hdone & Herr) Hpend].
    cbn. destruct (Z.ltb_spec (t - start) maxWait); [| lia].
    rewrite Hst, Hdone, Herr.
    rewrite (IH clock Hpend ltac:(cbn in Hlen; lia) Hclock). done.
Qed.

(** ** Closed examples, continued *)

Ltac among := repeat first [apply list_elem_of_here | apply list_elem_of_further].

Lemma accepted_payload_is_queued_witness :
  ∃ params bytes,
    @BindJSON Toy.codec "chicago" = inl params
    ∧ @Marshal_JobPayload Toy.codec (mkPayload "job-1" 7 (applyDefaults params)) = inl bytes
    ∧ list_at (db (@post_simulate Toy.codec "chicago" "job-1" 7 Toy.fresh).2) RedisJobsList
      = list_at (db Toy.fresh) RedisJobsList ++ [bytes].
Proof.
  apply (@accepted_payload_is_queued Toy.codec "chicago" "job-1" 7 Toy.fresh).
  reflexivity.
Defined.

Lemma rejected_submission_changes_nothing_witness :
  let r := (@post_simulate Toy.codec "chicago" "job-1" 7 Toy.redis_down).1 in
  let w' := (@post_simulate Toy.codec "chicago" "job-1" 7 Toy.redis_down).2 in
  (code r = StatusBadRequest ∨ code r = StatusInternalServerError)
  ∧ db w' = db Toy.redis_down ∧ logs w' = logs Toy.redis_down
  ∧ ∀ c ok, (c, ok) ∈ issued Toy.redis_down w' → ok = false.
Proof.
  apply (@rejected_submission_changes_nothing Toy.codec "chicago" "job-1" 7 Toy.redis_down).
  vm_compute. discriminate.
Defined.

Lemma metadata_record_written_witness :
  ∃ params,
    @BindJSON Toy.codec "chicago" = inl params
    ∧ "job_meta:job-1" = RedisJobMetaPrefix +:+ "job-1"
    ∧ "job-1|queued" =
        bytes_or_nil (@Marshal_JobMeta Toy.codec (queued_meta "job-1" 7 params))
    ∧ DefaultResultTTL = DefaultResultTTL
    ∧ db (@post_simulate Toy.codec "chicago" "job-1" 7 Toy.fresh).2 !! "job_meta:job-1"
      = Some (RString "job-1|queued" DefaultResultTTL).
Proof.
  apply (@metadata_record_written Toy.codec "chicago" "job-1" 7 Toy.fresh).
  vm_compute. among.
Defined.

Lemma failed_metadata_write_hides_job_witness :
  let r := (@post_simulate Toy.codec "chicago" "job-1" 7 Toy.flaky).1 in
  let w' := (@post_simulate Toy.codec "chicago" "job-1" 7 Toy.flaky).2 in
  code r = StatusAccepted
  ∧ (∃ msg, logs w' = logs Toy.flaky ++ ["warning: failed to set job meta: " +:+ msg])
  ∧ (@get_job Toy.codec "job-1" w').1
    = mkResponse StatusNotFound (error_body "job not found").
Proof.
  apply (@failed_metadata_write_hides_job Toy.codec "chicago" "job-1" 7 Toy.flaky
           "job_meta:job-1" "job-1|queued" DefaultResultTTL).
  - vm_compute. among.
  - reflexivity.
  - unfold calm. vm_compute. constructor.
Defined.

Lemma submitted_job_is_found_witness :
  let w' := (@post_simulate Toy.codec "chicago" "job-1" 0 Toy.fresh).2 in
  code (@get_job Toy.codec "job-1" w').1 ≠ StatusNotFound
  ∧ ∀ meta, @Unmarshal_JobMeta Toy.codec "job-1|queued" = (meta, None) →
            (@get_job Toy.codec "job-1" w').1 = mkResponse StatusOK (MetaBody meta).
Proof.
  apply (@submitted_job_is_found Toy.codec "chicago" "job-1" 0 Toy.fresh
           "job_meta:job-1" "job-1|queued" DefaultResultTTL).
  - vm_compute. among.
  - unfold calm. vm_compute. constructor.
Defined.

Lemma submitted_job_reports_its_status_witness :
  (@get_results_by_id Toy.codec "job-1"
     (@post_simulate Toy.codec "chicago" "job-1" 0 Toy.fresh).2).1 =
  mkResponse StatusOK
    (H [("job_id", VString "job-1");
        ("status", VString (Status (@Unmarshal_JobMeta Toy.codec "job-1|queued").1))]).
Proof.
  apply (@submitted_job_reports_its_status Toy.codec "chicago" "job-1" 0 Toy.fresh
           "job_meta:job-1" "job-1|queued" DefaultResultTTL).
  - vm_compute. among.
  - reflexivity.
  - unfold calm. vm_compute. constructor.
Defined.

Lemma metadata_query_resolution_witness :
  (@get_job Toy.codec "z" Toy.jobs).1 = mkResponse StatusNotFound (error_body "job not found")
  ∧ (@get_job Toy.codec "b" Toy.jobs).1 =
    mkResponse StatusOK (MetaBody (mkMeta "b" "queued" 0 0 zeroParams "" "")).
Proof.
  split.
  - destruct (@metadata_query_resolution Toy.codec "z" Toy.jobs) as [Habs _];
      [apply calm_no_plan |].
    exact (Habs eq_refl).
  - destruct (@metadata_query_resolution Toy.codec "b" Toy.jobs) as [_ Hrec];
      [apply calm_no_plan |].
    exact (Hrec "b|queued" _ eq_refl eq_refl).
Defined.

Lemma metadata_query_store_error_witness :
  (@get_job Toy.codec "b" Toy.redis_down).1 =
  mkResponse StatusInternalServerError
    (error_body ("redis error: " +:+ "dial tcp: connection refused")).
Proof.
  apply (@metadata_query_store_error Toy.codec "b" Toy.redis_down). by left.
Defined.

Lemma result_query_store_error_witness :
  (@get_results_by_id Toy.codec "b" Toy.redis_down).1 =
  mkResponse StatusInternalServerError
    (error_body ("redis error: " +:+ "dial tcp: connection refused")).
Proof.
  apply (@result_query_store_error Toy.codec "b" Toy.redis_down). by left.
Defined.

Lemma result_blob_is_authoritative_witness :
  let r := (@get_results_by_id Toy.codec "a" Toy.jobs).1 in
  let w' := (@get_results_by_id Toy.codec "a" Toy.jobs).2 in
  r = mkResponse StatusOK
        (H [("job_id", VString "a"); ("status", VString "done");
            ("result", match @Unmarshal_any Toy.codec "true" with
                       | Some parsed => VJSON parsed
                       | None => VString "true"
                       end)])
  ∧ issued Toy.jobs w' = [(GET (RedisResultsPrefix +:+ "a"), true)].
Proof.
  apply (@result_blob_is_authoritative Toy.codec "a" Toy.jobs "true");
    [apply calm_no_plan | reflexivity].
Defined.

Lemma listing_is_head_of_index_witness :
  ∃ ids,
    listed (get_results Toy.full).1 = Some ids
    ∧ ids = take 50 (recent_ids Toy.full)
    ∧ (length ids ≤ 50)%nat
    ∧ (absent Toy.full RedisRecentJobsList → ids = []).
Proof.
  apply listing_is_head_of_index; [apply calm_no_plan |].
  intros s ttl. vm_compute. discriminate.
Defined.

Lemma listing_store_error_witness :
  (get_results Toy.redis_down).1 =
  mkResponse StatusInternalServerError
    (error_body ("redis error: " +:+ "dial tcp: connection refused")).
Proof. apply listing_store_error. by left. Defined.

Lemma newest_id_heads_index_witness :
  let w' := (@post_simulate Toy.codec "{}" "job-100" 100 Toy.full).2 in
  recent_ids w' = take 100 ("job-100" :: recent_ids Toy.full)
  ∧ head (recent_ids w') = Some "job-100".
Proof.
  apply (@newest_id_heads_index Toy.codec "{}" "job-100" 100 Toy.full).
  vm_compute. among.
Defined.

Lemma failed_push_skips_trim_witness :
  let r := (@post_simulate Toy.codec "chicago" "job-1" 7 Toy.flaky).1 in
  let w' := (@post_simulate Toy.codec "chicago" "job-1" 7 Toy.flaky).2 in
  code r = StatusAccepted
  ∧ recent_ids w' = recent_ids Toy.flaky
  ∧ ∀ k a b ok, (LTRIM k a b, ok) ∉ issued Toy.flaky w'.
Proof.
  apply (@failed_push_skips_trim Toy.codec "chicago" "job-1" 7 Toy.flaky
           RedisRecentJobsList "job-1").
  vm_compute. among.
Defined.

Lemma failed_trim_keeps_everything_witness :
  let r := (@post_simulate Toy.codec "{}" "job-100" 100 Toy.full_trim_fails).1 in
  let w' := (@post_simulate Toy.codec "{}" "job-100" 100 Toy.full_trim_fails).2 in
  code r = StatusAccepted
  ∧ recent_ids w' = "job-100" :: recent_ids Toy.full_trim_fails.
Proof.
  apply (@failed_trim_keeps_everything Toy.codec "{}" "job-100" 100 Toy.full_trim_fails
           RedisRecentJobsList 0 (RecentJobsMaxRetain - 1)).
  vm_compute. among.
Defined.

Lemma recency_cap_preserved_witness :
  Z.of_nat (length (recent_ids
     (@post_simulate Toy.codec "{}" "job-100" 100 Toy.full).2)) ≤ RecentJobsMaxRetain.
Proof.
  apply (@recency_cap_preserved Toy.codec "{}" "job-100" 100 Toy.full).
  - vm_compute. intros Hin. not_among Hin.
  - vm_compute. discriminate.
Defined.

Lemma run_is_queued_and_listed_witness :
  let w' := (@submit_all Toy.codec (Toy.batch 3) Toy.fresh).2 in
  Forall (λ r, code r = StatusAccepted) (@submit_all Toy.codec (Toy.batch 3) Toy.fresh).1
  ∧ (∃ payloads,
       list_at (db w') RedisJobsList = list_at (db Toy.fresh) RedisJobsList ++ payloads
       ∧ Forall2 (λ req bytes,
                    ∃ params, @BindJSON Toy.codec req.1.1 = inl params ∧
                      @Marshal_JobPayload Toy.codec
                        (mkPayload req.1.2 req.2 (applyDefaults params)) = inl bytes)
                 (Toy.batch 3) payloads)
  ∧ listed (get_results w').1
    = Some (take 50 (reverse (job_ids (Toy.batch 3)) ++ recent_ids Toy.fresh))
  ∧ (recent_ids Toy.fresh = [] → (length (Toy.batch 3) ≤ 50)%nat →
     listed (get_results w').1 = Some (reverse (job_ids (Toy.batch 3)))).
Proof.
  apply (@run_is_queued_and_listed Toy.codec (Toy.batch 3) Toy.fresh).
  - discriminate.
  - unfold Toy.batch. apply Forall_fmap, Forall_forall. intros i _.
    exists zeroParams. eexists. split; reflexivity.
  - apply calm_no_plan.
  - intros s ttl. unfold Toy.fresh, Toy.world; simpl. by rewrite lookup_empty.
  - intros s ttl. unfold Toy.fresh, Toy.world; simpl. by rewrite lookup_empty.
Defined.

Lemma poller_returns_only_done_witness :
  let queued := JObject [("job_id", JString "a"); ("status", JString "queued")] in
  let done := JObject [("job_id", JString "a"); ("status", JString "done");
                       ("result", JNull)] in
  let fetches := [Returns queued; Returns done; Returns queued] in
  status_of done = Returns (Some (JString "done"))
  ∧ (1 ≤ 2)%nat
  ∧ fetches !! (2 - 1)%nat = Some (Returns done)
  ∧ Forall (λ o, ∃ resp, o = Returns resp ∧ pending_response resp)
           (take (2 - 1) fetches).
Proof.
  cbv zeta.
  apply (poller_returns_only_done 60000 [1000; 1001; 3005; 5009]).
  reflexivity.
Defined.

Lemma poller_requests_bounded_witness :
  getJobResults 5000 [1000; 1001; 3005; 5009; 7013]
    [Returns (JObject [("status", JString "queued")]);
     Returns (JObject [("status", JString "running")]);
     Returns (JObject [("status", JString "running")])]
  = Some (Throws (JsError "Timeout waiting for job results"), 3%nat)
  ∧ 2000 * (Z.of_nat 3 - 1) < 5000.
Proof.
  split; [reflexivity |].
  apply (poller_requests_bounded 5000 1000 1001 [3005; 5009; 7013]
           [Returns (JObject [("status", JString "queued")]);
            Returns (JObject [("status", JString "running")]);
            Returns (JObject [("status", JString "running")])]
           (Throws (JsError "Timeout waiting for job results")) 3).
  - reflexivity.
  - lia.
  - cbn. lia.
  - lia.
Defined.

Lemma poller_stops_at_first_error_witness :
  getJobResults 60000 [1000; 1001; 3005]
    ((Returns <$> [JObject [("status", JString "queued")]])
     ++ Throws (JsError "API Error (404): no result or job not found") :: [])
  = Some (Throws (JsError "API Error (404): no result or job not found"), 2%nat).
Proof.
  apply (poller_stops_at_first_error 60000 1000 [1001; 3005]
           [JObject [("status", JString "queued")]]).
  - constructor; [| constructor]. exists (Some (JString "queued")). by repeat split.
  - reflexivity.
  - repeat constructor; lia.
Defined.
